(** * Personal Task Manager: the task store and its derived views

    A shallow embedding of [personal-task-manager/src/App.js]: the task
    collection held by the [App] component, the four mutations
    ([addTask], [updateTask], [deleteTask], [toggleComplete]), the submit
    handler of [TaskForm], and the three derived values recomputed on every
    render ([filteredTasks], [stats], [sortedTasks]).

    Conventions of the embedding:
    - a timestamp string (an ISO instant, or the calendar date of a date
      input) is represented by the time value that [new Date(..)] gives for
      it, an integer number of milliseconds;
    - the two external collaborators are inputs: every reading of the clock
      ([Date.now()], [new Date()]) is a parameter [now], and the answer of
      [window.confirm] is a parameter [confirm];
    - a string is the sequence of the UTF-8 bytes of its text;
      [toLowerCase] and [trim] are embedded for ASCII text, where they fold
      the letters A to Z and strip the six ASCII white-space characters;
      a theorem that needs them to be the functions of the engine assumes
      ASCII text ([is_ascii]);
    - [Array.prototype.sort] is used only where ECMAScript fixes its
      result: it rearranges its input, and for a consistent comparator it
      gives the one stable sorted arrangement;
    - an exception thrown by a handler is the result [TypeError]. *)

From Stdlib Require Import ZArith List String Ascii Bool Lia.
From Stdlib Require Import Permutation Sorted.
Import ListNotations.

Local Open Scope string_scope.
Local Open Scope list_scope.
Local Open Scope Z_scope.

(** ** Data model *)

(** The three values of the priority select. *)
Inductive Priority : Type := low | medium | high.

(** The [completedAt] property of a task object: the key may be missing
    (a task that was never toggled), hold [null] (written when a task is
    marked incomplete), or hold the timestamp of the completion. *)
Inductive CompletedAt : Type :=
| Absent
| Null
| At (instant : Z).

(** A task object.  [description = None] is a missing key; [dueDate = None]
    is a missing key or the empty string of an unset date input, which the
    source treats alike (both are falsy). *)
Record task : Type := mkTask {
  id : Z;
  title : string;
  description : option string;
  priority : Priority;
  dueDate : option Z;
  completed : bool;
  createdAt : Z;
  completedAt : CompletedAt
}.

(** [formData] of [TaskForm]: exactly the four editable fields. *)
Record formData : Type := mkForm {
  f_title : string;
  f_description : string;
  f_priority : Priority;
  f_dueDate : option Z
}.

(** The [updates] argument of [updateTask]: an object holding any subset of
    the task's keys; [None] is a key that [updates] does not have. *)
Record updates : Type := mkUpdates {
  u_id : option Z;
  u_title : option string;
  u_description : option string;
  u_priority : option Priority;
  u_dueDate : option (option Z);
  u_completed : option bool;
  u_createdAt : option Z;
  u_completedAt : option CompletedAt
}.

(** What a handler returns: the next collection, or the exception raised
    when a property of [undefined] is read. *)
Inductive result (A : Type) : Type :=
| Ok (value : A)
| TypeError.
Arguments Ok {A} value.
Arguments TypeError {A}.

Definition Priority_eqb (p q : Priority) : bool :=
  match p, q with
  | low, low | medium, medium | high, high => true
  | _, _ => false
  end.

(** ** Task store *)

Definition or_else {A : Type} (o : option A) (d : A) : A :=
  match o with Some a => a | None => d end.

(** [{ ...task, ...updates }] *)
Definition spread (t : task) (u : updates) : task :=
  {| id := or_else (u_id u) (id t);
     title := or_else (u_title u) (title t);
     description :=
       match u_description u with Some d => Some d | None => description t end;
     priority := or_else (u_priority u) (priority t);
     dueDate := or_else (u_dueDate u) (dueDate t);
     completed := or_else (u_completed u) (completed t);
     createdAt := or_else (u_createdAt u) (createdAt t);
     completedAt := or_else (u_completedAt u) (completedAt t) |}.

(** [formData] seen as an [updates] object. *)
Definition form_updates (d : formData) : updates :=
  {| u_id := None;
     u_title := Some (f_title d);
     u_description := Some (f_description d);
     u_priority := Some (f_priority d);
     u_dueDate := Some (f_dueDate d);
     u_completed := None;
     u_createdAt := None;
     u_completedAt := None |}.

(** [{ id: Date.now(), ...taskData, completed: false,
       createdAt: new Date().toISOString() }]; the two readings of the
    clock are [nowId] and [nowCreated]. *)
Definition newTask (nowId nowCreated : Z) (taskData : formData) : task :=
  {| id := nowId;
     title := f_title taskData;
     description := Some (f_description taskData);
     priority := f_priority taskData;
     dueDate := f_dueDate taskData;
     completed := false;
     createdAt := nowCreated;
     completedAt := Absent |}.

Definition addTask (nowId nowCreated : Z) (taskData : formData)
    (tasks : list task) : list task :=
  tasks ++ [newTask nowId nowCreated taskData].

Definition updateTask (target : Z) (u : updates) (tasks : list task)
    : list task :=
  map (fun t => if id t =? target then spread t u else t) tasks.

Definition deleteTask (confirm : bool) (target : Z) (tasks : list task)
    : list task :=
  if confirm then filter (fun t => negb (id t =? target)) tasks else tasks.

(** The object literal that [toggleComplete] passes to [updateTask]. *)
Definition toggle_updates (now : Z) (t : task) : updates :=
  {| u_id := None;
     u_title := None;
     u_description := None;
     u_priority := None;
     u_dueDate := None;
     u_completed := Some (negb (completed t));
     u_createdAt := None;
     u_completedAt := Some (if negb (completed t) then At now else Null) |}.

(** [tasks.find] gives [undefined] when no task has the id, and the next
    line reads [task.completed]. *)
Definition toggleComplete (now : Z) (target : Z) (tasks : list task)
    : result (list task) :=
  match find (fun t => id t =? target) tasks with
  | None => TypeError
  | Some t => Ok (updateTask target (toggle_updates now t) tasks)
  end.

(** ** Form controller *)

Definition isWhiteSpace (c : ascii) : bool :=
  match nat_of_ascii c with
  | 9%nat | 10%nat | 11%nat | 12%nat | 13%nat | 32%nat => true
  | _ => false
  end.

Fixpoint trimStart (s : string) : string :=
  match s with
  | EmptyString => EmptyString
  | String c s' => if isWhiteSpace c then trimStart s' else s
  end.

Fixpoint rev_string (s acc : string) : string :=
  match s with
  | EmptyString => acc
  | String c s' => rev_string s' (String c acc)
  end.

Definition trim (s : string) : string :=
  rev_string (trimStart (rev_string (trimStart s) "")) "".

(** [handleSubmit]: [if (!formData.title.trim()) return; onSubmit(formData)].
    [None] is the early return. *)
Definition handleSubmit {A : Type} (onSubmit : formData -> A) (d : formData)
    : option A :=
  if String.eqb (trim (f_title d)) "" then None else Some (onSubmit d).

(** The [onSubmit] of the edit form:
    [updateTask(editingTask.id, taskData)]. *)
Definition submitEdit (editingTask : task) (tasks : list task)
    (taskData : formData) : list task :=
  updateTask (id editingTask) (form_updates taskData) tasks.

(** ** The component's state under user actions *)

(** The actions that reach the store, each with the inputs it reads: the
    submit of the add form, the submit of the edit form opened on the task
    with id [editing], a click on a checkbox and a click on a delete
    button. *)
Inductive action : Type :=
| AddSubmit (nowId nowCreated : Z) (d : formData)
| EditSubmit (editing : Z) (d : formData)
| Toggle (now : Z) (target : Z)
| Delete (confirm : bool) (target : Z).

(** One event handled to completion.  A rejected submit and a handler that
    throws both leave [tasks] as it was: [setTasks] is not reached. *)
Definition step (a : action) (tasks : list task) : list task :=
  match a with
  | AddSubmit nowId nowCreated d =>
      or_else (handleSubmit (fun d => addTask nowId nowCreated d tasks) d) tasks
  | EditSubmit editing d =>
      or_else (handleSubmit (fun d => updateTask editing (form_updates d) tasks) d)
              tasks
  | Toggle now target =>
      match toggleComplete now target tasks with
      | Ok tasks' => tasks'
      | TypeError => tasks
      end
  | Delete confirm target => deleteTask confirm target tasks
  end.

Definition run (actions : list action) (tasks : list task) : list task :=
  fold_left (fun ts a => step a ts) actions tasks.

(** The collections that the component can hold, starting from
    [useState([])]. *)
Definition reachable (tasks : list task) : Prop :=
  exists actions, tasks = run actions [].

(** The readings of [Date.now()] that became ids: one per accepted add. *)
Fixpoint issued_ids (actions : list action) : list Z :=
  match actions with
  | [] => []
  | AddSubmit nowId _ d :: rest =>
      if String.eqb (trim (f_title d)) "" then issued_ids rest
      else nowId :: issued_ids rest
  | _ :: rest => issued_ids rest
  end.

(** ** View model *)

Definition toLower (c : ascii) : ascii :=
  let n := nat_of_ascii c in
  if (65 <=? n)%nat && (n <=? 90)%nat then ascii_of_nat (n + 32) else c.

Fixpoint toLowerCase (s : string) : string :=
  match s with
  | EmptyString => EmptyString
  | String c s' => String (toLower c) (toLowerCase s')
  end.

Fixpoint startsWith (s sub : string) : bool :=
  match sub, s with
  | EmptyString, _ => true
  | String _ _, EmptyString => false
  | String b sub', String a s' => Ascii.eqb a b && startsWith s' sub'
  end.

(** [s.includes(sub)] *)
Fixpoint includes (s sub : string) : bool :=
  startsWith s sub ||
  match s with
  | EmptyString => false
  | String _ s' => includes s' sub
  end.

(** Truthiness of a string: only the empty string is falsy. *)
Definition truthy (s : string) : bool := negb (String.eqb s "").

Definition matchesSearch (searchTerm : string) (t : task) : bool :=
  includes (toLowerCase (title t)) (toLowerCase searchTerm) ||
  match description t with
  | Some d => truthy d && includes (toLowerCase d) (toLowerCase searchTerm)
  | None => false
  end.

(** The [switch (filter)] of the filter callback. *)
Definition passes (searchTerm flt : string) (t : task) : bool :=
  if String.eqb flt "completed" then completed t && matchesSearch searchTerm t
  else if String.eqb flt "pending" then
    negb (completed t) && matchesSearch searchTerm t
  else if String.eqb flt "high" then
    Priority_eqb (priority t) high && matchesSearch searchTerm t
  else if String.eqb flt "medium" then
    Priority_eqb (priority t) medium && matchesSearch searchTerm t
  else if String.eqb flt "low" then
    Priority_eqb (priority t) low && matchesSearch searchTerm t
  else matchesSearch searchTerm t.

Definition filteredTasks (tasks : list task) (searchTerm flt : string)
    : list task :=
  filter (passes searchTerm flt) tasks.

Record statistics : Type := mkStats {
  total : nat;
  s_completed : nat;
  s_pending : nat;
  overdue : nat
}.

(** [!task.completed && task.dueDate && new Date(task.dueDate) < new Date()] *)
Definition isOverdue (now : Z) (t : task) : bool :=
  negb (completed t) &&
  match dueDate t with
  | Some d => d <? now
  | None => false
  end.

Definition stats (now : Z) (tasks : list task) : statistics :=
  {| total := List.length tasks;
     s_completed := List.length (filter (fun t => completed t) tasks);
     s_pending := List.length (filter (fun t => negb (completed t)) tasks);
     overdue := List.length (filter (isOverdue now) tasks) |}.

Definition priorityOrder (p : Priority) : Z :=
  match p with high => 3 | medium => 2 | low => 1 end.

(** The comparator given to [sort]. *)
Definition compareTasks (a b : task) : Z :=
  if negb (Bool.eqb (completed a) (completed b)) then
    if completed a then 1 else -1
  else if negb (Priority_eqb (priority a) (priority b)) then
    priorityOrder (priority b) - priorityOrder (priority a)
  else
    match dueDate a, dueDate b with
    | Some da, Some db => da - db
    | _, _ => createdAt b - createdAt a
    end.

(** [Array.prototype.sort]: ECMAScript asks for a stable sort and leaves
    the algorithm, and the order produced for a comparator that is not
    consistent, to the engine.  For a consistent comparator the result is
    the same for every engine (a list has one stable sorted arrangement,
    [sorted_stable_unique] below), and [sort] computes it by insertion: an
    element goes in front of the first one it does not compare greater
    than.  For a comparator that is not consistent, nothing but
    [sort_Permutation] is to be read off [sort]: an engine may give
    another arrangement. *)
Section Sort.
Context {A : Type} (cmp : A -> A -> Z).

Fixpoint insert (x : A) (l : list A) : list A :=
  match l with
  | [] => [x]
  | y :: l' => if cmp x y <=? 0 then x :: l else y :: insert x l'
  end.

Fixpoint sort (l : list A) : list A :=
  match l with
  | [] => []
  | x :: l' => insert x (sort l')
  end.
End Sort.

Definition sortedTasks (tasks : list task) (searchTerm flt : string)
    : list task :=
  sort compareTasks (filteredTasks tasks searchTerm flt).

(** ** Properties, as the specification words them *)

(** No task of the collection has the id. *)
Definition unknown_id (target : Z) (tasks : list task) : Prop :=
  forall t, In t tasks -> id t <> target.

(** [completedAt] holds a timestamp. *)
Definition stamped (t : task) : Prop := exists instant, completedAt t = At instant.

(** The invariant of the data model read to the letter: a timestamp when
    completed, and a missing key (not [null]) when not. *)
Definition completedAt_as_specified (t : task) : Prop :=
  (completed t = true -> stamped t) /\
  (completed t = false -> completedAt t = Absent).

(** What the store maintains: a timestamp exactly when completed; a task
    that is not completed has no key or [null]. *)
Definition completedAt_consistent (t : task) : Prop :=
  match completedAt t with
  | At _ => completed t = true
  | Absent | Null => completed t = false
  end.

(** A task with the completion fields rewritten as two toggles leave them:
    the flag as it was, and the stamp of the second toggle or [null]. *)
Definition toggled_twice (now2 : Z) (first u : task) : task :=
  {| id := id u;
     title := title u;
     description := description u;
     priority := priority u;
     dueDate := dueDate u;
     completed := completed first;
     createdAt := createdAt u;
     completedAt := if completed first then At now2 else Null |}.

(** Two strings are equal up to the case of their letters. *)
Fixpoint eq_ignore_case (u v : string) : Prop :=
  match u, v with
  | EmptyString, EmptyString => True
  | String a u', String b v' => toLower a = toLower b /\ eq_ignore_case u' v'
  | _, _ => False
  end.

(** [term] occurs in [s], case-insensitively. *)
Definition ci_substring (term s : string) : Prop :=
  exists pre u post,
    s = (pre ++ u ++ post)%string /\ eq_ignore_case u term.

Definition text_match (term : string) (t : task) : Prop :=
  ci_substring term (title t) \/
  exists d, description t = Some d /\ ci_substring term d.

Definition valid_filter (flt : string) : Prop :=
  In flt ["all"; "pending"; "completed"; "high"; "medium"; "low"].

Definition category_match (flt : string) (t : task) : Prop :=
  flt = "all" \/
  (flt = "pending" /\ completed t = false) \/
  (flt = "completed" /\ completed t = true) \/
  (flt = "high" /\ priority t = high) \/
  (flt = "medium" /\ priority t = medium) \/
  (flt = "low" /\ priority t = low).

(** An incomplete task whose due date has passed. *)
Definition overdue_task (now : Z) (t : task) : Prop :=
  completed t = false /\ exists d, dueDate t = Some d /\ d < now.

(** [counts P l n]: exactly [n] positions of [l] hold a task with [P]. *)
Inductive counts (P : task -> Prop) : list task -> nat -> Prop :=
| counts_nil : counts P [] 0
| counts_in t l n : P t -> counts P l n -> counts P (t :: l) (S n)
| counts_out t l n : ~ P t -> counts P l n -> counts P (t :: l) n.











(** ** ASCII text and case *)

Definition is_ascii_char (c : ascii) : bool := (nat_of_ascii c <? 128)%nat.

(** Text of ASCII characters only: the text on which [toLowerCase] and
    [trim] above are the functions of the engine. *)
Fixpoint is_ascii (s : string) : bool :=
  match s with
  | EmptyString => true
  | String c s' => is_ascii_char c && is_ascii s'
  end.

Definition ascii_task (t : task) : Prop :=
  is_ascii (title t) = true /\
  forall d, description t = Some d -> is_ascii d = true.

Definition is_upper (c : ascii) : bool :=
  (65 <=? nat_of_ascii c)%nat && (nat_of_ascii c <=? 90)%nat.

(** The same character, or the capital and the small form of one of the
    letters A to Z, 32 apart. *)
Definition same_letter (a b : ascii) : Prop :=
  a = b \/
  (is_upper a = true /\ nat_of_ascii b = (nat_of_ascii a + 32)%nat) \/
  (is_upper b = true /\ nat_of_ascii a = (nat_of_ascii b + 32)%nat).

(** The forms of the letters of the Greek alphabet; sigma has a capital, a
    small and a final small form. *)
Definition greek_letters : list (list string) :=
  [["Α"; "α"]; ["Β"; "β"]; ["Γ"; "γ"]; ["Δ"; "δ"]; ["Ε"; "ε"]; ["Ζ"; "ζ"];
   ["Η"; "η"]; ["Θ"; "θ"]; ["Ι"; "ι"]; ["Κ"; "κ"]; ["Λ"; "λ"]; ["Μ"; "μ"];
   ["Ν"; "ν"]; ["Ξ"; "ξ"]; ["Ο"; "ο"]; ["Π"; "π"]; ["Ρ"; "ρ"];
   ["Σ"; "σ"; "ς"]; ["Τ"; "τ"]; ["Υ"; "υ"]; ["Φ"; "φ"]; ["Χ"; "χ"];
   ["Ψ"; "ψ"]; ["Ω"; "ω"]].

Definition greek_same_letter (x y : string) : Prop :=
  exists forms, In forms greek_letters /\ In x forms /\ In y forms.

(** Two texts that differ at most in the case of their letters, for the
    letters A to Z and the Greek alphabet.  It is defined letter by letter
    and without [toLowerCase]. *)
Inductive equal_ignoring_case : string -> string -> Prop :=
| eic_empty : equal_ignoring_case "" ""
| eic_letter a b u v :
    same_letter a b -> equal_ignoring_case u v ->
    equal_ignoring_case (String a u) (String b v)
| eic_greek x y u v :
    greek_same_letter x y -> equal_ignoring_case u v ->
    equal_ignoring_case (x ++ u)%string (y ++ v)%string.

(** [term] occurs in [s] when case is ignored. *)
Definition occurs_ignoring_case (term s : string) : Prop :=
  exists pre u post,
    s = (pre ++ u ++ post)%string /\ equal_ignoring_case u term.

(** The text match of the filter: the term occurs, case ignored, in the
    title or in the description, if there is one. *)
Definition text_matches (term : string) (t : task) : Prop :=
  occurs_ignoring_case term (title t) \/
  exists d, description t = Some d /\ occurs_ignoring_case term d.

(** ** Sample data *)

Definition milk : formData :=
  {| f_title := "Buy milk"; f_description := ""; f_priority := high;
     f_dueDate := None |}.

Definition blank : formData :=
  {| f_title := "   "; f_description := ""; f_priority := medium;
     f_dueDate := None |}.

Definition report : formData :=
  {| f_title := "Write Report"; f_description := "quarterly numbers";
     f_priority := medium; f_dueDate := Some 86400000 |}.


(** ** The rest of the component *)

(** The initial draft of [TaskForm]:
    [{ title: task?.title || '', description: task?.description || '',
       priority: task?.priority || 'medium', dueDate: task?.dueDate || '' }];
    [task] is [null] for the add form. *)
Definition initialFormData (editing : option task) : formData :=
  match editing with
  | None =>
      {| f_title := ""; f_description := ""; f_priority := medium;
         f_dueDate := None |}
  | Some t =>
      {| f_title := title t;
         f_description := or_else (description t) "";
         f_priority := priority t;
         f_dueDate := dueDate t |}
  end.

(** The state of [App]: its five [useState] cells. *)
Record app : Type := mkApp {
  app_tasks : list task;
  app_filter : string;
  app_searchTerm : string;
  showAddForm : bool;
  editingTask : option task
}.

(** The first render. *)
Definition initialApp : app := mkApp [] "all" "" false None.

(** [(showAddForm || editingTask) && <TaskForm ... />] *)
Definition formVisible (a : app) : bool :=
  showAddForm a || match editingTask a with Some _ => true | None => false end.

(** The events of the page, each with the inputs its handler reads. *)
Inductive event : Type :=
| ClickAdd
| ClickEdit (t : task)
| FormSubmit (nowId nowCreated : Z) (d : formData)
| FormCancel
| ClickToggle (now : Z) (target : Z)
| ClickDelete (confirm : bool) (target : Z)
| ChangeSearch (s : string)
| ChangeFilter (s : string).

(** The [onSubmit] that [App] hands to the form: the edit closure when
    [editingTask] is set, [addTask] otherwise. *)
Definition onSubmit (nowId nowCreated : Z) (a : app) (d : formData) : app :=
  match editingTask a with
  | Some e =>
      mkApp (updateTask (id e) (form_updates d) (app_tasks a))
            (app_filter a) (app_searchTerm a) (showAddForm a) None
  | None =>
      mkApp (addTask nowId nowCreated d (app_tasks a))
            (app_filter a) (app_searchTerm a) false None
  end.

(** One event handled to completion.  The form's buttons exist only while
    the form is rendered, so a submit without a form is no event at all and
    leaves the state as it is. *)
Definition handle (e : event) (a : app) : app :=
  match e with
  | ClickAdd =>
      mkApp (app_tasks a) (app_filter a) (app_searchTerm a) true
            (editingTask a)
  | ClickEdit t =>
      mkApp (app_tasks a) (app_filter a) (app_searchTerm a) (showAddForm a)
            (Some t)
  | FormSubmit nowId nowCreated d =>
      if formVisible a
      then or_else (handleSubmit (onSubmit nowId nowCreated a) d) a
      else a
  | FormCancel =>
      mkApp (app_tasks a) (app_filter a) (app_searchTerm a) false None
  | ClickToggle now target =>
      match toggleComplete now target (app_tasks a) with
      | Ok tasks' =>
          mkApp tasks' (app_filter a) (app_searchTerm a) (showAddForm a)
                (editingTask a)
      | TypeError => a
      end
  | ClickDelete confirm target =>
      mkApp (deleteTask confirm target (app_tasks a))
            (app_filter a) (app_searchTerm a) (showAddForm a) (editingTask a)
  | ChangeSearch s =>
      mkApp (app_tasks a) (app_filter a) s (showAddForm a) (editingTask a)
  | ChangeFilter s =>
      mkApp (app_tasks a) s (app_searchTerm a) (showAddForm a) (editingTask a)
  end.

Definition handleAll (events : list event) (a : app) : app :=
  fold_left (fun st e => handle e st) events a.

(** The add button and the edit buttons are used only while no form is
    open. *)
Fixpoint opens_when_closed (events : list event) (a : app) : Prop :=
  match events with
  | [] => True
  | e :: rest =>
      match e with
      | ClickAdd | ClickEdit _ => formVisible a = false
      | _ => True
      end /\ opens_when_closed rest (handle e a)
  end.

(** What the task list shows when there is nothing to show:
    [sortedTasks.length === 0] and the choice between the two messages;
    [None] when cards are rendered. *)
Definition emptyState (tasks : list task) (searchTerm flt : string)
    : option string :=
  match sortedTasks tasks searchTerm flt with
  | [] =>
      Some (if truthy searchTerm || negb (String.eqb flt "all")
            then "Try adjusting your search or filter."
            else "Add your first task to get started!")
  | _ :: _ => None
  end.

(** The cards that [TaskCard] marks overdue; its [isOverdue] is the
    expression of [stats.overdue]. *)
Definition overdueCards (now : Z) (tasks : list task)
    (searchTerm flt : string) : list task :=
  filter (isOverdue now) (sortedTasks tasks searchTerm flt).

(** A string of white space only. *)
Fixpoint all_whitespace (s : string) : Prop :=
  match s with
  | EmptyString => True
  | String c s' => isWhiteSpace c = true /\ all_whitespace s'
  end.

(** The fields that the edit form does not normalise. *)
Definition but_description (t : task)
    : Z * string * Priority * option Z * bool * Z * CompletedAt :=
  (id t, title t, priority t, dueDate t, completed t, createdAt t,
   completedAt t).

(** The add form and the edit form are not both requested. *)
Definition one_form (a : app) : Prop :=
  showAddForm a = false \/ editingTask a = None.

(** * Theorems *)

(** ** Task store: lookups and frames *)

Lemma updateTask_length target u tasks :
  List.length (updateTask target u tasks) = List.length tasks.
Proof. apply length_map. Qed.

Lemma updateTask_nth target u tasks i :
  nth_error (updateTask target u tasks) i =
  option_map (fun t => if id t =? target then spread t u else t)
             (nth_error tasks i).
Proof. unfold updateTask. apply nth_error_map. Qed.

Lemma updateTask_unknown target u tasks :
  unknown_id target tasks -> updateTask target u tasks = tasks.
Proof.
  unfold unknown_id, updateTask. induction tasks as [|t tasks IH]; intros H.
  - reflexivity.
  - simpl. destruct (Z.eqb_spec (id t) target) as [E|_].
    + exfalso. apply (H t); [now left | exact E].
    + f_equal. apply IH. intros t' Ht'. apply H. now right.
Qed.

Lemma deleteTask_unknown confirm target tasks :
  unknown_id target tasks -> deleteTask confirm target tasks = tasks.
Proof.
  unfold unknown_id, deleteTask. destruct confirm; [|reflexivity].
  induction tasks as [|t tasks IH]; intros H.
  - reflexivity.
  - simpl. destruct (Z.eqb_spec (id t) target) as [E|_]; simpl.
    + exfalso. apply (H t); [now left | exact E].
    + f_equal. apply IH. intros t' Ht'. apply H. now right.
Qed.


(** Keeping the id of every task keeps the list of ids. *)
Lemma updateTask_ids target u tasks :
  u_id u = None -> map id (updateTask target u tasks) = map id tasks.
Proof.
  intros Hu. unfold updateTask. rewrite map_map. apply map_ext.
  intros t. destruct (id t =? target); [|reflexivity].
  unfold spread. simpl. now rewrite Hu.
Qed.

(** In a collection with distinct ids, [find] by the id of a member gives
    that member. *)
Lemma find_member tasks t :
  NoDup (map id tasks) -> In t tasks ->
  find (fun u => id u =? id t) tasks = Some t.
Proof.
  induction tasks as [|x tasks IH]; intros Hnd Hin; [destruct Hin|].
  simpl in *. inversion Hnd as [|? ? Hx Hnd']; subst.
  destruct Hin as [->|Hin].
  - now rewrite Z.eqb_refl.
  - destruct (Z.eqb_spec (id x) (id t)) as [E|_].
    + exfalso. apply Hx. rewrite E. now apply in_map.
    + now apply IH.
Qed.

(** ** Adding and editing *)

Lemma trim_nonblank_accepts {A : Type} (onSubmit : formData -> A) d :
  trim (f_title d) <> "" -> handleSubmit onSubmit d = Some (onSubmit d).
Proof.
  intros H. unfold handleSubmit.
  destruct (String.eqb_spec (trim (f_title d)) ""); [contradiction|reflexivity].
Qed.

(** C9.  A submitted draft whose title is not blank reaches [addTask], and
    the collection it sets is the old one with one task appended: one task
    longer, every old task at its old position, and at the end the new
    task, not completed, with the clock's reading as [createdAt] and the
    four fields of the draft. *)
Theorem addTask_appends_one nowId nowCreated d tasks :
  trim (f_title d) <> "" ->
  exists tasks' t,
    handleSubmit (fun d => addTask nowId nowCreated d tasks) d = Some tasks' /\
    List.length tasks' = S (List.length tasks) /\
    firstn (List.length tasks) tasks' = tasks /\
    (forall i u, nth_error tasks i = Some u -> nth_error tasks' i = Some u) /\
    nth_error tasks' (List.length tasks) = Some t /\
    completed t = false /\ createdAt t = nowCreated /\ id t = nowId /\
    completedAt t = Absent /\
    title t = f_title d /\ description t = Some (f_description d) /\
    priority t = f_priority d /\ dueDate t = f_dueDate d.
Proof.
  intros H. exists (addTask nowId nowCreated d tasks), (newTask nowId nowCreated d).
  split.
  { exact (trim_nonblank_accepts (fun d => addTask nowId nowCreated d tasks) d H). }
  unfold addTask. repeat split.
  - rewrite length_app. simpl. lia.
  - rewrite firstn_app, Nat.sub_diag, firstn_all. simpl. apply app_nil_r.
  - intros i u Hi. rewrite nth_error_app1; [exact Hi|].
    apply nth_error_Some. congruence.
  - rewrite nth_error_app2, Nat.sub_diag by lia. reflexivity.
Qed.

Lemma addTask_appends_one_witness :
  trim (f_title milk) <> "" /\
  exists tasks' t,
    handleSubmit (fun d => addTask 42 43 d []) milk = Some tasks' /\
    List.length tasks' = 1%nat /\
    firstn 0 tasks' = [] /\
    (forall i u, nth_error (@nil task) i = Some u -> nth_error tasks' i = Some u) /\
    nth_error tasks' 0 = Some t /\
    completed t = false /\ createdAt t = 43 /\ id t = 42 /\
    completedAt t = Absent /\
    title t = f_title milk /\ description t = Some (f_description milk) /\
    priority t = f_priority milk /\ dueDate t = f_dueDate milk.
Proof.
  assert (H : trim (f_title milk) <> "") by (vm_compute; discriminate).
  split; [exact H|].
  exact (addTask_appends_one 42 43 milk [] H).
Defined.

Lemma distinct_ids_distinct_positions tasks i j t u :
  NoDup (map id tasks) ->
  nth_error tasks i = Some t -> nth_error tasks j = Some u ->
  j <> i -> id u <> id t.
Proof.
  intros Hnd Hi Hj Hne E. apply Hne.
  apply (proj1 (NoDup_nth_error (map id tasks)) Hnd).
  - rewrite length_map. apply nth_error_Some. congruence.
  - rewrite !nth_error_map, Hi, Hj. simpl. now rewrite E.
Qed.

(** C10 (as amended).  Submitting the edit form opened on a task [t] of the
    collection keeps the length and the order of the collection; at every
    position the task keeps its [id], [completed], [completedAt] and
    [createdAt]; every task with another id is left as it is; [t] itself
    takes the four fields of the draft; and in a collection with distinct
    ids every task at another position than [t] is left as it is. *)
Theorem edit_changes_only_the_draft_fields t d tasks :
  In t tasks ->
  let tasks' := submitEdit t tasks d in
  List.length tasks' = List.length tasks /\
  map id tasks' = map id tasks /\
  (forall i u, nth_error tasks i = Some u ->
     exists u', nth_error tasks' i = Some u' /\
       id u' = id u /\ completed u' = completed u /\
       completedAt u' = completedAt u /\ createdAt u' = createdAt u /\
       (id u <> id t -> u' = u)) /\
  (exists i t', nth_error tasks i = Some t /\ nth_error tasks' i = Some t' /\
     title t' = f_title d /\ description t' = Some (f_description d) /\
     priority t' = f_priority d /\ dueDate t' = f_dueDate d) /\
  (NoDup (map id tasks) ->
   forall i j u, nth_error tasks i = Some t -> j <> i ->
     nth_error tasks j = Some u -> nth_error tasks' j = Some u).
Proof.
  intros Hin tasks'. subst tasks'. unfold submitEdit.
  split; [apply updateTask_length|].
  split; [now apply updateTask_ids|].
  split; [|split].
  - intros i u Hi. rewrite updateTask_nth, Hi. simpl.
    destruct (Z.eqb_spec (id u) (id t)) as [E|N].
    + eexists. split; [reflexivity|]. simpl. repeat split. contradiction.
    + exists u. repeat split.
  - destruct (In_nth_error _ _ Hin) as [i Hi]. exists i.
    eexists. split; [exact Hi|]. rewrite updateTask_nth, Hi. simpl.
    rewrite Z.eqb_refl. split; [reflexivity|]. simpl. repeat split.
  - intros Hnd i j u Hi Hne Hj. rewrite updateTask_nth, Hj. simpl.
    pose proof (distinct_ids_distinct_positions _ _ _ _ _ Hnd Hi Hj Hne) as N.
    now rewrite (proj2 (Z.eqb_neq _ _) N).
Qed.

Lemma edit_changes_only_the_draft_fields_witness :
  let t := newTask 1 1 milk in
  let tasks := [newTask 1 1 milk; newTask 2 2 report] in
  In t tasks /\
  List.length (submitEdit t tasks report) = 2%nat /\
  map id (submitEdit t tasks report) = [1; 2].
Proof.
  intros t tasks.
  assert (H : In t tasks) by (left; reflexivity).
  split; [exact H|].
  destruct (edit_changes_only_the_draft_fields t report tasks H)
    as (Hlen & Hids & _).
  split; [exact Hlen | exact Hids].
Defined.

(** C10 as stated fails where two tasks share an id, as after two adds
    within one millisecond: the edit of the first overwrites the four
    fields of the second too. *)
Lemma edit_overwrites_a_task_sharing_the_id :
  let tasks := run [AddSubmit 5 5 milk; AddSubmit 5 5 report] [] in
  let t := newTask 5 5 milk in
  let other := newTask 5 5 report in
  let draft := mkForm "Call Bob" "" low None in
  reachable tasks /\ nth_error tasks 0 = Some t /\
  nth_error tasks 1 = Some other /\ other <> t /\
  nth_error (submitEdit t tasks draft) 1
    = Some (mkTask 5 "Call Bob" (Some "") low None false 5 Absent) /\
  nth_error (submitEdit t tasks draft) 1 <> Some other.
Proof.
  intros tasks t other draft.
  split; [eexists; reflexivity|].
  split; [reflexivity|]. split; [reflexivity|].
  split; [discriminate|]. split; [reflexivity|discriminate].
Qed.

(** ** Invariants of the reachable collections *)

Lemma run_app actions1 actions2 tasks :
  run (actions1 ++ actions2) tasks = run actions2 (run actions1 tasks).
Proof. apply fold_left_app. Qed.

Lemma spread_form_completion t d :
  completed (spread t (form_updates d)) = completed t /\
  completedAt (spread t (form_updates d)) = completedAt t.
Proof. split; reflexivity. Qed.

Lemma updateTask_Forall (P : task -> Prop) target u tasks :
  (forall t, P t -> P (spread t u)) ->
  Forall P tasks -> Forall P (updateTask target u tasks).
Proof.
  intros Hu H. unfold updateTask. induction H as [|t tasks Ht _ IH]; simpl.
  - constructor.
  - constructor; [|exact IH]. destruct (id t =? target); auto.
Qed.

Lemma step_consistent a tasks :
  Forall completedAt_consistent tasks ->
  Forall completedAt_consistent (step a tasks).
Proof.
  intros H. destruct a as [nowId nowCreated d|editing d|now target|confirm target];
    simpl.
  - unfold handleSubmit. destruct (String.eqb _ _); simpl; [exact H|].
    unfold addTask. apply Forall_app. split; [exact H|].
    constructor; [reflexivity|constructor].
  - unfold handleSubmit. destruct (String.eqb _ _); simpl; [exact H|].
    apply updateTask_Forall; [|exact H]. intros t Ht. exact Ht.
  - unfold toggleComplete.
    destruct (find _ tasks) as [t0|]; [|exact H].
    apply updateTask_Forall; [|exact H]. intros t _.
    unfold completedAt_consistent, spread, toggle_updates. simpl.
    destruct (completed t0); reflexivity.
  - unfold deleteTask. destruct confirm; [|exact H].
    apply Forall_forall. intros t Ht. apply filter_In in Ht.
    destruct Ht as [Ht _]. revert t Ht. now apply Forall_forall.
Qed.

Lemma run_consistent actions : forall tasks,
  Forall completedAt_consistent tasks ->
  Forall completedAt_consistent (run actions tasks).
Proof.
  induction actions as [|a actions IH]; intros tasks H; simpl.
  - exact H.
  - apply IH. now apply step_consistent.
Qed.

(** C2 (as amended).  In every collection that the component can reach from
    the empty one by add submits, edit submits, toggles and deletes, a task
    holds a completion timestamp exactly when it is completed; a task that
    is not completed has no [completedAt] key or has [null] there. *)
Theorem completedAt_stamped_iff_completed tasks t :
  reachable tasks -> In t tasks ->
  (stamped t <-> completed t = true) /\
  (completed t = false -> completedAt t = Absent \/ completedAt t = Null).
Proof.
  intros [actions ->] Hin.
  assert (H : completedAt_consistent t).
  { pose proof (run_consistent actions [] (Forall_nil _)) as HF.
    rewrite Forall_forall in HF. now apply HF. }
  unfold completedAt_consistent, stamped in *.
  destruct (completedAt t) as [| |instant] eqn:E; (split; [split|]).
  all: try (intros [? ?]; discriminate); try congruence; eauto.
Qed.

Lemma completedAt_stamped_iff_completed_witness :
  let tasks := run [AddSubmit 1 1 milk; Toggle 2 1] [] in
  let t := mkTask 1 "Buy milk" (Some "") high None true 1 (At 2) in
  reachable tasks /\ In t tasks /\ (stamped t <-> completed t = true).
Proof.
  intros tasks t.
  assert (Hr : reachable tasks) by (eexists; reflexivity).
  assert (Hin : In t tasks) by (left; reflexivity).
  split; [exact Hr|]. split; [exact Hin|].
  exact (proj1 (completedAt_stamped_iff_completed tasks t Hr Hin)).
Defined.

(** C2 as stated fails: after an add and two toggles the task is not
    completed and its [completedAt] is [null], not a missing key. *)
Lemma completedAt_null_after_untoggle :
  ~ (forall tasks t,
       reachable tasks -> In t tasks -> completedAt_as_specified t).
Proof.
  intros H.
  pose (actions := [AddSubmit 1 1 milk; Toggle 2 1; Toggle 3 1]).
  pose (t := mkTask 1 "Buy milk" (Some "") high None false 1 Null).
  assert (Hr : reachable (run actions [])) by (eexists; reflexivity).
  assert (Hin : In t (run actions [])) by (left; reflexivity).
  destruct (H _ t Hr Hin) as [_ Habs].
  specialize (Habs eq_refl). discriminate Habs.
Qed.

(** ** Toggling *)

Lemma find_updateTask target u tasks t0 :
  u_id u = None ->
  find (fun t => id t =? target) tasks = Some t0 ->
  find (fun t => id t =? target) (updateTask target u tasks)
  = Some (spread t0 u).
Proof.
  intros Hu. induction tasks as [|x tasks IH]; simpl; [discriminate|].
  destruct (Z.eqb_spec (id x) target) as [E|N].
  - intros [= ->]. simpl. rewrite Hu. simpl.
    now rewrite (proj2 (Z.eqb_eq _ _) E).
  - intros H. simpl. rewrite (proj2 (Z.eqb_neq _ _) N). now apply IH.
Qed.

Lemma updateTask_twice target u u' tasks :
  u_id u = None ->
  updateTask target u' (updateTask target u tasks)
  = map (fun t => if id t =? target then spread (spread t u) u' else t) tasks.
Proof.
  intros Hu. unfold updateTask. rewrite map_map. apply map_ext. intros t.
  destruct (id t =? target) eqn:E; [|now rewrite E].
  simpl. rewrite Hu. simpl. now rewrite E.
Qed.

Lemma spread_toggle_twice now1 now2 t0 u :
  spread (spread u (toggle_updates now1 t0))
         (toggle_updates now2 (spread t0 (toggle_updates now1 t0)))
  = toggled_twice now2 t0 u.
Proof.
  unfold toggled_twice, spread, toggle_updates. simpl.
  now rewrite !Bool.negb_involutive.
Qed.

(** Two toggles of an id that [find] resolves to [t0]: both succeed, and
    every task with the id ends with the flag of [t0]. *)
Lemma toggleComplete_twice now1 now2 target tasks t0 :
  find (fun t => id t =? target) tasks = Some t0 ->
  exists tasks1,
    toggleComplete now1 target tasks = Ok tasks1 /\
    toggleComplete now2 target tasks1
    = Ok (map (fun u => if id u =? target then toggled_twice now2 t0 u else u)
              tasks).
Proof.
  intros Hf. eexists. split.
  - unfold toggleComplete. rewrite Hf. reflexivity.
  - unfold toggleComplete.
    rewrite (find_updateTask target (toggle_updates now1 t0) tasks t0 eq_refl Hf).
    rewrite updateTask_twice by reflexivity. f_equal.
    apply map_ext. intros u. destruct (id u =? target); [|reflexivity].
    apply spread_toggle_twice.
Qed.

(** C3 (as amended).  In a collection with pairwise distinct ids, toggling
    the id of a task twice succeeds both times and gives the task its
    [completed] flag back.  [completedAt] is not given back: it becomes
    [null] if the task was not completed, and the instant of the second
    toggle if it was.  The other fields of the task, and the tasks with
    another id, are as before. *)
Theorem toggle_twice_restores_completed tasks i t now1 now2 :
  NoDup (map id tasks) -> nth_error tasks i = Some t ->
  exists tasks1 tasks2 t2,
    toggleComplete now1 (id t) tasks = Ok tasks1 /\
    toggleComplete now2 (id t) tasks1 = Ok tasks2 /\
    nth_error tasks2 i = Some t2 /\
    completed t2 = completed t /\
    completedAt t2 = (if completed t then At now2 else Null) /\
    t2 = toggled_twice now2 t t /\
    (forall j u, nth_error tasks j = Some u -> id u <> id t ->
       nth_error tasks2 j = Some u).
Proof.
  intros Hnd Hi.
  assert (Hf : find (fun u => id u =? id t) tasks = Some t).
  { apply find_member; [exact Hnd|]. eapply nth_error_In; eassumption. }
  destruct (toggleComplete_twice now1 now2 _ _ _ Hf) as (tasks1 & H1 & H2).
  exists tasks1. eexists. exists (toggled_twice now2 t t).
  split; [exact H1|]. split; [exact H2|]. split.
  - rewrite nth_error_map, Hi. simpl. now rewrite Z.eqb_refl.
  - repeat split. intros j u Hj Hne.
    rewrite nth_error_map, Hj. simpl.
    now rewrite (proj2 (Z.eqb_neq _ _) Hne).
Qed.

Lemma toggle_twice_restores_completed_witness :
  let t := newTask 1 1 milk in
  let tasks := [t; newTask 2 2 report] in
  NoDup (map id tasks) /\ nth_error tasks 0 = Some t /\
  exists tasks1 tasks2 t2,
    toggleComplete 5 1 tasks = Ok tasks1 /\
    toggleComplete 6 1 tasks1 = Ok tasks2 /\
    nth_error tasks2 0 = Some t2 /\
    completed t2 = false /\
    completedAt t2 = Null /\
    t2 = toggled_twice 6 t t /\
    (forall j u, nth_error tasks j = Some u -> id u <> 1 ->
       nth_error tasks2 j = Some u).
Proof.
  intros t tasks.
  assert (Hnd : NoDup (map id tasks)).
  { simpl. repeat constructor; simpl; intuition lia. }
  split; [exact Hnd|]. split; [reflexivity|].
  exact (toggle_twice_restores_completed tasks 0 t 5 6 Hnd eq_refl).
Defined.

(** C3 as stated fails, on both sides of the flag: a task that was never
    completed has no [completedAt] key and gets [null] after two toggles;
    a task completed at instant 2 is completed anew at instant 4.  Where
    two tasks share an id, the second takes the flag of the first. *)
Lemma toggle_twice_changes_completedAt :
  (let tasks := addTask 1 1 milk [] in
   exists t tasks1 tasks2 t2,
     nth_error tasks 0 = Some t /\
     toggleComplete 2 (id t) tasks = Ok tasks1 /\
     toggleComplete 3 (id t) tasks1 = Ok tasks2 /\
     nth_error tasks2 0 = Some t2 /\
     completedAt t = Absent /\ completedAt t2 = Null /\
     completedAt t2 <> completedAt t) /\
  (let tasks := run [AddSubmit 1 1 milk; Toggle 2 1] [] in
   exists t tasks1 tasks2 t2,
     nth_error tasks 0 = Some t /\
     toggleComplete 3 (id t) tasks = Ok tasks1 /\
     toggleComplete 4 (id t) tasks1 = Ok tasks2 /\
     nth_error tasks2 0 = Some t2 /\
     completedAt t = At 2 /\ completedAt t2 = At 4 /\
     completedAt t2 <> completedAt t) /\
  (let tasks := run [AddSubmit 5 5 milk; Toggle 6 5; AddSubmit 5 7 report] [] in
   exists t tasks1 tasks2 t2,
     nth_error tasks 1 = Some t /\
     toggleComplete 8 (id t) tasks = Ok tasks1 /\
     toggleComplete 9 (id t) tasks1 = Ok tasks2 /\
     nth_error tasks2 1 = Some t2 /\
     completed t = false /\ completed t2 = true).
Proof.
  split; [|split]; intros tasks; do 4 eexists;
    (split; [reflexivity|]); (split; [reflexivity|]);
    (split; [reflexivity|]); (split; [reflexivity|]);
    (split; [reflexivity|]); try (split; [reflexivity|discriminate]);
    reflexivity.
Qed.

(** ** Ids *)

Lemma NoDup_map_filter_app {A B : Type} (f : A -> B) (p : A -> bool) l r :
  NoDup (map f l ++ r) -> NoDup (map f (filter p l) ++ r).
Proof.
  induction l as [|x l IH]; simpl; intros H; [exact H|].
  inversion H as [|? ? Hx Hnd]; subst.
  destruct (p x); simpl; [|now apply IH].
  constructor; [|now apply IH].
  intros Hin. apply Hx. apply in_app_or in Hin. apply in_or_app.
  destruct Hin as [Hin|Hin]; [left|now right].
  apply in_map_iff in Hin. destruct Hin as (y & <- & Hy).
  apply in_map. apply filter_In in Hy. tauto.
Qed.

Lemma toggleComplete_ids now target tasks tasks' :
  toggleComplete now target tasks = Ok tasks' -> map id tasks' = map id tasks.
Proof.
  unfold toggleComplete. destruct (find _ tasks); [|discriminate].
  intros [= <-]. now apply updateTask_ids.
Qed.

Lemma run_ids_distinct actions : forall tasks,
  NoDup (map id tasks ++ issued_ids actions) ->
  NoDup (map id (run actions tasks)).
Proof.
  induction actions as [|a actions IH]; intros tasks H; simpl in *.
  - now rewrite app_nil_r in H.
  - apply IH.
    destruct a as [nowId nowCreated d|editing d|now target|confirm target];
      simpl.
    + unfold handleSubmit. destruct (String.eqb _ _); simpl; [exact H|].
      unfold addTask. rewrite map_app, <- app_assoc. exact H.
    + unfold handleSubmit. destruct (String.eqb _ _); simpl; [exact H|].
      now rewrite updateTask_ids.
    + destruct (toggleComplete now target tasks) as [tasks'|] eqn:E;
        [|exact H].
      now rewrite (toggleComplete_ids _ _ _ _ E).
    + unfold deleteTask. destruct confirm; [|exact H].
      now apply NoDup_map_filter_app.
Qed.

(** C4 (as amended).  An id is the reading of [Date.now()] at the add.  If
    the readings taken by the accepted adds of a sequence of actions are
    pairwise distinct, then, starting from the empty collection, the ids of
    the resulting collection are pairwise distinct. *)
Theorem ids_distinct_when_clock_readings_distinct actions :
  NoDup (issued_ids actions) -> NoDup (map id (run actions [])).
Proof. intros H. now apply run_ids_distinct. Qed.

Lemma ids_distinct_when_clock_readings_distinct_witness :
  let actions :=
    [AddSubmit 1 1 milk; AddSubmit 2 2 blank; AddSubmit 3 3 report;
     Toggle 4 1; EditSubmit 3 milk; Delete true 1; AddSubmit 5 6 milk] in
  NoDup (issued_ids actions) /\ NoDup (map id (run actions [])).
Proof.
  intros actions.
  assert (H : NoDup (issued_ids actions)).
  { simpl. repeat constructor; simpl; intuition lia. }
  split; [exact H|].
  exact (ids_distinct_when_clock_readings_distinct actions H).
Defined.

(** C4 as stated fails: two adds accepted within the same millisecond read
    the same [Date.now()] and the collection holds the id twice. *)
Lemma same_millisecond_same_id :
  ~ NoDup (map id (run [AddSubmit 5 5 milk; AddSubmit 5 5 report] [])).
Proof.
  simpl. intros H. inversion H as [|? ? Hx _]; subst.
  apply Hx. now left.
Qed.

(** ** Text search *)

Lemma startsWith_spec s sub :
  startsWith s sub = true <-> exists post, s = (sub ++ post)%string.
Proof.
  revert s. induction sub as [|b sub IH]; intros [|a s]; simpl.
  - split; [intros _; now exists "" | reflexivity].
  - split; [intros _; now exists (String a s) | reflexivity].
  - split; [discriminate | intros [post H]; discriminate].
  - rewrite Bool.andb_true_iff, IH. split.
    + intros [Hab [post ->]]. apply Ascii.eqb_eq in Hab. subst.
      now exists post.
    + intros [post [= -> ->]]. split; [apply Ascii.eqb_refl | now exists post].
Qed.

Lemma includes_spec s sub :
  includes s sub = true <->
  exists pre post, s = (pre ++ sub ++ post)%string.
Proof.
  induction s as [|a s IH].
  - cbn [includes]. rewrite Bool.orb_false_r, startsWith_spec. split.
    + intros [post H]. now exists "", post.
    + intros (pre & post & H). destruct pre; [now exists post|discriminate].
  - cbn [includes]. rewrite Bool.orb_true_iff, startsWith_spec, IH. split.
    + intros [[post H]|(pre & post & H)].
      * now exists "", post.
      * exists (String a pre), post. simpl. now rewrite H.
    + intros (pre & post & H). destruct pre as [|c pre].
      * left. now exists post.
      * right. simpl in H. injection H as _ H. now exists pre, post.
Qed.

Lemma includes_empty s : includes s "" = true.
Proof. destruct s; reflexivity. Qed.

Lemma toLowerCase_app a b :
  toLowerCase (a ++ b)%string = (toLowerCase a ++ toLowerCase b)%string.
Proof. induction a as [|c a IH]; simpl; [reflexivity | now rewrite IH]. Qed.

(** A split of the folded string comes from a split of the string. *)
Lemma toLowerCase_split s : forall a b,
  toLowerCase s = (a ++ b)%string ->
  exists sa sb, s = (sa ++ sb)%string /\
                toLowerCase sa = a /\ toLowerCase sb = b.
Proof.
  induction s as [|c s IH]; intros a b H.
  - destruct a; [|discriminate]. simpl in H. subst b. now exists "", "".
  - destruct a as [|x a].
    + simpl in H. subst b. now exists "", (String c s).
    + simpl in H. injection H as Hx H. destruct (IH _ _ H) as (sa & sb & -> & <- & <-).
      exists (String c sa), sb. simpl. now rewrite Hx.
Qed.

Lemma eq_ignore_case_iff u : forall v,
  eq_ignore_case u v <-> toLowerCase u = toLowerCase v.
Proof.
  induction u as [|a u IH]; intros [|b v]; simpl; try tauto.
  - split; [contradiction|discriminate].
  - split; [contradiction|discriminate].
  - rewrite IH. split.
    + intros [-> ->]. reflexivity.
    + intros [= -> ->]. now split.
Qed.

(** The test of the source on one field is the case-insensitive substring
    relation. *)
Lemma includes_ci_substring term s :
  includes (toLowerCase s) (toLowerCase term) = true <-> ci_substring term s.
Proof.
  rewrite includes_spec. unfold ci_substring. split.
  - intros (pre & post & H).
    destruct (toLowerCase_split _ _ _ H) as (sa & sb & -> & <- & Hb).
    destruct (toLowerCase_split _ _ _ Hb) as (u & sc & -> & Hu & <-).
    exists sa, u, sc. split; [reflexivity|]. now apply eq_ignore_case_iff.
  - intros (pre & u & post & -> & Hu). apply eq_ignore_case_iff in Hu.
    exists (toLowerCase pre), (toLowerCase post).
    now rewrite !toLowerCase_app, Hu.
Qed.

Lemma ci_substring_of_empty term : ci_substring term "" -> term = "".
Proof.
  intros (pre & u & post & H & Hu).
  destruct pre; [|discriminate]. destruct u; [|discriminate].
  destruct term; [reflexivity|contradiction].
Qed.

Lemma matchesSearch_spec term t :
  matchesSearch term t = true <-> text_match term t.
Proof.
  unfold matchesSearch, text_match.
  rewrite Bool.orb_true_iff, includes_ci_substring. split.
  - intros [H|H]; [now left|]. right.
    destruct (description t) as [d|]; [|discriminate].
    apply Bool.andb_true_iff in H. destruct H as [_ H].
    exists d. split; [reflexivity|]. now apply includes_ci_substring.
  - intros [H|(d & Hd & H)]; [now left|]. rewrite Hd.
    unfold truthy. destruct (String.eqb_spec d "") as [->|_]; simpl.
    + left. apply ci_substring_of_empty in H. subst term.
      apply includes_ci_substring, includes_empty.
    + right. now apply includes_ci_substring.
Qed.

Lemma Priority_eqb_eq p q : Priority_eqb p q = true <-> p = q.
Proof. destruct p, q; simpl; split; congruence. Qed.

Lemma passes_spec term flt t :
  valid_filter flt ->
  passes term flt t = true <-> text_match term t /\ category_match flt t.
Proof.
  unfold valid_filter, category_match. rewrite <- matchesSearch_spec.
  intros H. simpl in H.
  destruct H as [<-|[<-|[<-|[<-|[<-|[<-|[]]]]]]]; unfold passes; simpl;
    rewrite ?Bool.andb_true_iff, ?Bool.negb_true_iff, ?Priority_eqb_eq;
    intuition congruence.
Qed.

(** *** Case folding on ASCII text *)

Lemma is_upper_spec c :
  is_upper c = true <-> (65 <= nat_of_ascii c <= 90)%nat.
Proof.
  unfold is_upper. rewrite Bool.andb_true_iff, !Nat.leb_le. tauto.
Qed.

Lemma nat_of_ascii_inj a b : nat_of_ascii a = nat_of_ascii b -> a = b.
Proof.
  intros H. rewrite <- (ascii_nat_embedding a), <- (ascii_nat_embedding b).
  now rewrite H.
Qed.

Lemma nat_of_toLower c :
  nat_of_ascii (toLower c)
  = if is_upper c then (nat_of_ascii c + 32)%nat else nat_of_ascii c.
Proof.
  unfold toLower. fold (is_upper c).
  destruct (is_upper c) eqn:U; [|reflexivity].
  apply is_upper_spec in U. apply nat_ascii_embedding. lia.
Qed.

Lemma toLower_same_letter a b : toLower a = toLower b <-> same_letter a b.
Proof.
  unfold same_letter. split.
  - intros H. apply (f_equal nat_of_ascii) in H.
    rewrite !nat_of_toLower in H.
    destruct (is_upper a) eqn:Ua, (is_upper b) eqn:Ub.
    + left. apply nat_of_ascii_inj. lia.
    + right. left. split; [reflexivity|lia].
    + right. right. split; [reflexivity|lia].
    + left. now apply nat_of_ascii_inj.
  - intros [->|[[U H]|[U H]]]; [reflexivity| |];
      apply nat_of_ascii_inj; rewrite !nat_of_toLower, U.
    + assert (Ub : is_upper b = false).
      { apply is_upper_spec in U. apply Bool.not_true_is_false.
        rewrite is_upper_spec. lia. }
      rewrite Ub. lia.
    + assert (Ua : is_upper a = false).
      { apply is_upper_spec in U. apply Bool.not_true_is_false.
        rewrite is_upper_spec. lia. }
      rewrite Ua. lia.
Qed.

Lemma is_ascii_app a b :
  is_ascii (a ++ b)%string = is_ascii a && is_ascii b.
Proof.
  induction a as [|c a IH]; simpl; [reflexivity|].
  now rewrite IH, Bool.andb_assoc.
Qed.

Lemma same_letter_eq_ignore_case u : forall v,
  eq_ignore_case u v -> equal_ignoring_case u v.
Proof.
  induction u as [|a u IH]; intros [|b v]; simpl; try contradiction.
  - intros _. constructor.
  - intros [H Huv]. constructor; [now apply toLower_same_letter | now apply IH].
Qed.

(** The forms of the Greek letters start outside ASCII. *)
Lemma greek_forms_start_outside_ascii x y u :
  greek_same_letter x y -> is_ascii (x ++ u)%string = false.
Proof.
  intros (forms & Hf & Hx & _).
  assert (H : forallb (forallb (fun x =>
                match x with
                | String c _ => negb (is_ascii_char c)
                | EmptyString => false
                end)) greek_letters = true) by (vm_compute; reflexivity).
  rewrite forallb_forall in H. specialize (H forms Hf).
  rewrite forallb_forall in H. specialize (H x Hx).
  destruct x as [|c x]; [discriminate|]. simpl.
  apply Bool.negb_true_iff in H. now rewrite H.
Qed.

Lemma equal_ignoring_case_ascii u v :
  is_ascii u = true -> equal_ignoring_case u v -> eq_ignore_case u v.
Proof.
  intros Hu H. induction H as [|a b u v Hab _ IH|x y u v Hxy _ _].
  - exact I.
  - simpl in Hu. apply Bool.andb_true_iff in Hu. destruct Hu as [_ Hu].
    simpl. split; [now apply toLower_same_letter | now apply IH].
  - rewrite (greek_forms_start_outside_ascii x y u Hxy) in Hu. discriminate.
Qed.

(** On ASCII text, ignoring case is what the comparison of the folded
    texts decides. *)
Lemma occurs_ignoring_case_ascii term s :
  is_ascii s = true -> (occurs_ignoring_case term s <-> ci_substring term s).
Proof.
  intros Hs. unfold occurs_ignoring_case, ci_substring. split.
  - intros (pre & u & post & -> & Hu). exists pre, u, post.
    split; [reflexivity|]. apply equal_ignoring_case_ascii; [|exact Hu].
    rewrite !is_ascii_app, !Bool.andb_true_iff in Hs. tauto.
  - intros (pre & u & post & -> & Hu). exists pre, u, post.
    split; [reflexivity|]. now apply same_letter_eq_ignore_case.
Qed.

Lemma text_matches_ascii term t :
  ascii_task t -> (text_matches term t <-> text_match term t).
Proof.
  intros [Ht Hd]. unfold text_matches, text_match.
  rewrite (occurs_ignoring_case_ascii term (title t) Ht). split.
  - intros [H|(d & E & H)]; [now left|right]. exists d. split; [exact E|].
    now apply (occurs_ignoring_case_ascii term d (Hd d E)).
  - intros [H|(d & E & H)]; [now left|right]. exists d. split; [exact E|].
    now apply (occurs_ignoring_case_ascii term d (Hd d E)).
Qed.

(** C6 (as amended).  For a task whose title and description are ASCII
    text, an ASCII search term and each of the six filter values, the task
    is in the filtered view exactly when it is in the collection, the
    search term occurs in its title or in its description with the case of
    the letters ignored (a task without description can only match by its
    title), and the category holds: [all] always, [pending] and
    [completed] by the flag, [high], [medium] and [low] by the
    priority. *)
Theorem filtered_iff_text_and_category_on_ascii tasks term flt t :
  valid_filter flt -> is_ascii term = true -> ascii_task t ->
  In t (filteredTasks tasks term flt) <->
  In t tasks /\ text_matches term t /\ category_match flt t.
Proof.
  intros Hf _ Ht. unfold filteredTasks. rewrite filter_In.
  rewrite (passes_spec term flt t Hf), (text_matches_ascii term t Ht).
  reflexivity.
Qed.

Lemma filtered_iff_text_and_category_on_ascii_witness :
  let t := newTask 1 1 report in
  valid_filter "medium" /\ is_ascii "REPORT" = true /\ ascii_task t /\
  In t (filteredTasks [newTask 2 2 milk; t] "REPORT" "medium") /\
  text_matches "REPORT" t /\ category_match "medium" t.
Proof.
  intros t.
  assert (H : valid_filter "medium") by (unfold valid_filter; simpl; tauto).
  assert (Ha : ascii_task t).
  { split; [reflexivity|]. intros d [= <-]. reflexivity. }
  split; [exact H|]. split; [reflexivity|]. split; [exact Ha|].
  assert (Hin : In t (filteredTasks [newTask 2 2 milk; t] "REPORT" "medium"))
    by (left; reflexivity).
  split; [exact Hin|].
  exact (proj2 (proj1 (filtered_iff_text_and_category_on_ascii
                         [newTask 2 2 milk; t] "REPORT" "medium" t H eq_refl Ha)
                      Hin)).
Defined.

(** C6 as stated fails outside ASCII, where the comparison of the
    lower-cased texts is not the comparison with the case ignored.  The
    title [ασα] holds the letters alpha and sigma, in this order, yet is
    found neither for the search term [ας], the same two letters with the
    sigma in its final form, nor for [ΑΣ], the same two letters in
    capitals, which [toLowerCase] turns into [ας]: in both cases the bytes
    of the lower-cased term do not occur in the title. *)
Lemma final_sigma_is_not_found :
  let t := mkTask 1 "ασα" None medium None false 1 Absent in
  valid_filter "all" /\ In t [t] /\ category_match "all" t /\
  (text_matches "ας" t /\ ~ In t (filteredTasks [t] "ας" "all")) /\
  (text_matches "ΑΣ" t /\ ~ In t (filteredTasks [t] "ΑΣ" "all")).
Proof.
  intros t.
  assert (alpha : forall x y, In x ["Α"; "α"] -> In y ["Α"; "α"] ->
                              greek_same_letter x y).
  { intros x y Hx Hy. exists ["Α"; "α"]. split; [|now split].
    unfold greek_letters. simpl. tauto. }
  assert (sigma : forall x y, In x ["Σ"; "σ"; "ς"] -> In y ["Σ"; "σ"; "ς"] ->
                              greek_same_letter x y).
  { intros x y Hx Hy. exists ["Σ"; "σ"; "ς"]. split; [|now split].
    unfold greek_letters. simpl. tauto. }
  split; [unfold valid_filter; simpl; tauto|].
  split; [now left|]. split; [now left|]. split; split.
  - left. exists "", "ασ", "α". split; [reflexivity|].
    apply (eic_greek "α" "α" "σ" "ς"); [apply alpha; simpl; tauto|].
    apply (eic_greek "σ" "ς" "" ""); [apply sigma; simpl; tauto|].
    constructor.
  - intros H. exact H.
  - left. exists "", "ασ", "α". split; [reflexivity|].
    apply (eic_greek "α" "Α" "σ" "Σ"); [apply alpha; simpl; tauto|].
    apply (eic_greek "σ" "Σ" "" ""); [apply sigma; simpl; tauto|].
    constructor.
  - intros H. exact H.
Qed.

(** ** Pending and completed views *)

Lemma passes_pending term t :
  passes term "pending" t = negb (completed t) && matchesSearch term t.
Proof. reflexivity. Qed.

Lemma passes_completed term t :
  passes term "completed" t = completed t && matchesSearch term t.
Proof. reflexivity. Qed.

Lemma passes_all term t : passes term "all" t = matchesSearch term t.
Proof. reflexivity. Qed.

Lemma matchesSearch_empty t : matchesSearch "" t = true.
Proof. unfold matchesSearch. simpl. now rewrite includes_empty. Qed.

Lemma filter_true {A : Type} (p : A -> bool) l :
  (forall x, p x = true) -> filter p l = l.
Proof.
  intros H. induction l as [|x l IH]; simpl; [reflexivity|].
  now rewrite H, IH.
Qed.

(** Two predicates that exclude each other split the tasks passing either
    of them. *)
Lemma filter_split_Permutation {A : Type} (p q r : A -> bool) l :
  (forall x, r x = p x || q x) -> (forall x, p x && q x = false) ->
  Permutation (filter p l ++ filter q l) (filter r l).
Proof.
  intros Hr Hpq. induction l as [|x l IH]; simpl; [constructor|].
  rewrite Hr. specialize (Hpq x).
  destruct (p x), (q x); simpl in *; try discriminate.
  - now constructor.
  - apply Permutation_sym, Permutation_cons_app, Permutation_sym, IH.
  - exact IH.
Qed.

(** C8 (as amended).  For every collection and search term, the pending
    view and the completed view share no task, together they hold exactly
    the tasks of the collection that match the search term, each as often
    as the collection does, and a task that does not match is in neither.
    With the empty search term every task matches, and the two views
    partition the collection. *)
Theorem pending_completed_split_the_matches tasks term :
  let pending := filteredTasks tasks term "pending" in
  let done := filteredTasks tasks term "completed" in
  (forall t, ~ (In t pending /\ In t done)) /\
  (forall t, In t pending \/ In t done <-> In t tasks /\ text_match term t) /\
  Permutation (pending ++ done) (filteredTasks tasks term "all") /\
  Permutation (filteredTasks tasks "" "pending" ++
               filteredTasks tasks "" "completed") tasks.
Proof.
  intros pending done. subst pending done. unfold filteredTasks.
  assert (Hsplit : forall term',
    Permutation (filter (passes term' "pending") tasks ++
                 filter (passes term' "completed") tasks)
                (filter (passes term' "all") tasks)).
  { intros term'. apply filter_split_Permutation; intros x.
    - rewrite passes_pending, passes_completed, passes_all.
      destruct (completed x), (matchesSearch term' x); reflexivity.
    - rewrite passes_pending, passes_completed.
      destruct (completed x), (matchesSearch term' x); reflexivity. }
  split; [|split; [|split]].
  - intros t [Hp Hc]. apply filter_In in Hp, Hc.
    rewrite passes_pending in Hp. rewrite passes_completed in Hc.
    destruct Hp as [_ Hp], Hc as [_ Hc]. destruct (completed t); discriminate.
  - intros t. rewrite !filter_In, passes_pending, passes_completed.
    rewrite <- matchesSearch_spec.
    destruct (completed t), (matchesSearch term t); simpl; intuition congruence.
  - apply Hsplit.
  - rewrite (Hsplit "").
    rewrite (filter_true (passes "" "all")); [reflexivity|].
    intros x. rewrite passes_all. apply matchesSearch_empty.
Qed.

(** C8 as stated fails: with a search term that a task does not match, the
    task is in the collection and in neither of the two views. *)
Lemma unmatched_task_in_neither_view :
  let t := newTask 1 1 milk in
  In t [t] /\
  ~ In t (filteredTasks [t] "xyz" "pending") /\
  ~ In t (filteredTasks [t] "xyz" "completed").
Proof.
  intros t. split; [now left|]. split; intros H; exact H.
Qed.

(** ** Statistics *)

Lemma isOverdue_spec now t : isOverdue now t = true <-> overdue_task now t.
Proof.
  unfold isOverdue, overdue_task.
  rewrite Bool.andb_true_iff, Bool.negb_true_iff. split.
  - intros [Hc Hd]. split; [exact Hc|].
    destruct (dueDate t) as [d|]; [|discriminate].
    exists d. split; [reflexivity|]. now apply Z.ltb_lt.
  - intros [Hc (d & -> & Hd)]. split; [exact Hc|]. now apply Z.ltb_lt.
Qed.

Lemma counts_filter (P : task -> Prop) (p : task -> bool) l :
  (forall t, p t = true <-> P t) -> counts P l (List.length (filter p l)).
Proof.
  intros H. induction l as [|t l IH]; simpl.
  - constructor.
  - destruct (p t) eqn:E; simpl.
    + apply counts_in; [now apply H | exact IH].
    + apply counts_out; [|exact IH]. intros HP. apply H in HP. congruence.
Qed.

Lemma counts_functional (P : task -> Prop) l : forall n m,
  counts P l n -> counts P l m -> n = m.
Proof.
  induction l as [|t l IH]; intros n m Hn Hm;
    inversion Hn; inversion Hm; subst; try reflexivity; try contradiction.
  - f_equal. eauto.
  - eauto.
Qed.

Lemma filter_filter_and {A : Type} (p q : A -> bool) l :
  filter p (filter q l) = filter (fun x => q x && p x) l.
Proof.
  induction l as [|x l IH]; simpl; [reflexivity|].
  destruct (q x); simpl; [destruct (p x)|]; now rewrite IH.
Qed.

Lemma no_completed_task_overdue now tasks :
  filter (isOverdue now) (filter (fun t => completed t) tasks) = [].
Proof.
  induction tasks as [|t tasks IH]; simpl; [reflexivity|].
  destruct (completed t) eqn:E; simpl; [|exact IH].
  unfold isOverdue at 1. rewrite E. simpl. exact IH.
Qed.

Lemma overdue_le_pending now tasks :
  (List.length (filter (isOverdue now) tasks)
   <= List.length (filter (fun t => negb (completed t)) tasks))%nat.
Proof.
  induction tasks as [|t tasks IH]; simpl; [lia|].
  unfold isOverdue at 1. destruct (completed t); simpl; [exact IH|].
  destruct (dueDate t) as [d|]; [destruct (d <? now)|]; simpl; lia.
Qed.

(** C7.  For every collection and reading of the clock, the overdue
    statistic is the number of tasks that are not completed and have a due
    date earlier than the reading, and no other number is.  Completed
    tasks do not count whatever their due date: the statistic is the same
    on the collection without them, and it never exceeds the pending
    statistic. *)
Theorem overdue_counts_incomplete_past_due now tasks :
  counts (overdue_task now) tasks (overdue (stats now tasks)) /\
  (forall n, counts (overdue_task now) tasks n <->
             n = overdue (stats now tasks)) /\
  overdue (stats now tasks)
  = overdue (stats now (filter (fun t => negb (completed t)) tasks)) /\
  overdue (stats now (filter (fun t => completed t) tasks)) = 0%nat /\
  (overdue (stats now tasks) <= s_pending (stats now tasks))%nat.
Proof.
  assert (H : counts (overdue_task now) tasks (overdue (stats now tasks))).
  { simpl. apply counts_filter. intros t. apply isOverdue_spec. }
  split; [exact H|]. split; [|split; [|split]].
  - intros n. split.
    + intros Hn. exact (counts_functional _ _ _ _ Hn H).
    + intros ->. exact H.
  - simpl. rewrite filter_filter_and. f_equal. apply filter_ext.
    intros t. unfold isOverdue. destruct (completed t); reflexivity.
  - simpl. now rewrite no_completed_task_overdue.
  - simpl. apply overdue_le_pending.
Qed.

(** ** The sort *)

Section SortFacts.
Context {A : Type} (cmp : A -> A -> Z).

Lemma insert_Permutation x l : Permutation (x :: l) (insert cmp x l).
Proof.
  induction l as [|y l IH]; simpl; [reflexivity|].
  destruct (cmp x y <=? 0); [reflexivity|].
  rewrite perm_swap. now constructor.
Qed.

Lemma sort_Permutation l : Permutation l (sort cmp l).
Proof.
  induction l as [|x l IH]; simpl; [constructor|].
  rewrite <- insert_Permutation. now constructor.
Qed.

Lemma insert_In x y l : In y (insert cmp x l) <-> y = x \/ In y l.
Proof.
  split; intros H.
  - apply (Permutation_in _ (Permutation_sym (insert_Permutation x l))) in H.
    destruct H as [<-|H]; auto.
  - apply (Permutation_in _ (insert_Permutation x l)).
    destruct H as [->|H]; [now left | now right].
Qed.

(** Neighbours of the output are in comparator order, for every
    comparator that gives opposite signs to the two orders of a pair. *)
Section Neighbours.
Hypothesis cmp_antisym : forall a b, 0 < cmp a b -> cmp b a <= 0.


End Neighbours.

(** Stability: a selection of elements that stand in comparator order in
    the input stands in the same order in the output. *)
Section Stable.
Variable P : A -> bool.



End Stable.
End SortFacts.

(** ** The comparator *)







(** ** The displayed order *)












(** ** Ids that no task has *)





(** ** Scenarios *)

Example search_ignores_case :
  matchesSearch "MILK" (newTask 1 1 milk) = true /\
  matchesSearch "numbers" (newTask 1 1 report) = true /\
  matchesSearch "xyz" (newTask 1 1 report) = false.
Proof. repeat split. Qed.

Example blank_title_is_rejected :
  run [AddSubmit 1 1 blank] [] = [] /\
  run [AddSubmit 1 1 milk; EditSubmit 1 blank] [] = [newTask 1 1 milk].
Proof. split; reflexivity. Qed.

Example first_task_statistics :
  stats 10 (run [AddSubmit 1 1 milk] []) = mkStats 1 0 1 0.
Proof. reflexivity. Qed.

Example overdue_until_completed :
  let tasks := run [AddSubmit 1 1 report] [] in
  filteredTasks tasks "" "pending" = tasks /\
  overdue (stats 90000000 tasks) = 1%nat /\
  overdue (stats 90000000 (run [Toggle 90000000 1] tasks)) = 0%nat.
Proof. repeat split. Qed.

Example incomplete_high_before_completed_medium :
  let done := mkTask 1 "done" None medium None true 1 (At 5) in
  let urgent := mkTask 2 "urgent" None high None false 2 Absent in
  sortedTasks [done; urgent] "" "all" = [urgent; done].
Proof. reflexivity. Qed.

Example delete_needs_confirmation :
  run [AddSubmit 1 1 milk; Delete false 1] [] = [newTask 1 1 milk] /\
  run [AddSubmit 1 1 milk; Delete true 1] [] = [].
Proof. split; reflexivity. Qed.

(** * More of the component *)

(** ** The store's operations *)

Lemma find_id_some target tasks t :
  find (fun u => id u =? target) tasks = Some t -> In t tasks /\ id t = target.
Proof.
  intros H. apply find_some in H. destruct H as [Hin E].
  split; [exact Hin|]. now apply Z.eqb_eq.
Qed.

(** X1.  [toggleComplete] returns a collection exactly when some task has
    the id; otherwise it raises.  The collection it returns has the ids of
    the old one, in the same order. *)
Theorem toggleComplete_succeeds_iff_known now target tasks :
  ((exists tasks', toggleComplete now target tasks = Ok tasks') <->
   exists t, In t tasks /\ id t = target) /\
  (toggleComplete now target tasks = TypeError <-> unknown_id target tasks) /\
  (forall tasks', toggleComplete now target tasks = Ok tasks' ->
     map id tasks' = map id tasks).
Proof.
  unfold toggleComplete.
  destruct (find (fun t => id t =? target) tasks) as [t0|] eqn:Hf.
  - destruct (find_id_some _ _ _ Hf) as [Hin Hid]. split; [|split].
    + split; [intros _; now exists t0 | intros _; eexists; reflexivity].
    + split; [discriminate|]. intros Hu. exfalso. exact (Hu t0 Hin Hid).
    + intros tasks' [= <-]. now apply updateTask_ids.
  - assert (Hu : unknown_id target tasks).
    { intros t Hin E. apply (find_none _ _ Hf) in Hin.
      apply Z.eqb_neq in Hin. contradiction. }
    split; [|split].
    + split; [intros [? H]; discriminate H|].
      intros (t & Hin & E). exfalso. exact (Hu t Hin E).
    + split; auto.
    + discriminate.
Qed.

(** X2.  In a collection with distinct ids, one toggle of a task flips its
    flag, stamps it with the clock's reading when it becomes completed and
    writes [null] when it becomes incomplete; its other fields, and every
    task at another position, stay as they are. *)
Theorem toggleComplete_flips_and_stamps tasks i t now :
  NoDup (map id tasks) -> nth_error tasks i = Some t ->
  exists tasks' t',
    toggleComplete now (id t) tasks = Ok tasks' /\
    nth_error tasks' i = Some t' /\
    completed t' = negb (completed t) /\
    completedAt t' = (if completed t then Null else At now) /\
    id t' = id t /\ title t' = title t /\ description t' = description t /\
    priority t' = priority t /\ dueDate t' = dueDate t /\
    createdAt t' = createdAt t /\
    (forall j u, j <> i -> nth_error tasks j = Some u ->
       nth_error tasks' j = Some u).
Proof.
  intros Hnd Hi.
  assert (Hf : find (fun u => id u =? id t) tasks = Some t).
  { apply find_member; [exact Hnd|]. eapply nth_error_In; eassumption. }
  unfold toggleComplete. rewrite Hf.
  exists (updateTask (id t) (toggle_updates now t) tasks).
  exists (spread t (toggle_updates now t)).
  split; [reflexivity|]. split.
  { rewrite updateTask_nth, Hi. simpl. now rewrite Z.eqb_refl. }
  split; [reflexivity|]. split; [simpl; now destruct (completed t)|].
  repeat (split; [reflexivity|]).
  intros j u Hne Hj. rewrite updateTask_nth, Hj. simpl.
  pose proof (distinct_ids_distinct_positions _ _ _ _ _ Hnd Hi Hj Hne) as N.
  now rewrite (proj2 (Z.eqb_neq _ _) N).
Qed.

Lemma toggleComplete_flips_and_stamps_witness :
  let t := newTask 1 1 milk in
  let tasks := [t; newTask 2 2 report] in
  NoDup (map id tasks) /\ nth_error tasks 0 = Some t /\
  exists tasks' t',
    toggleComplete 9 (id t) tasks = Ok tasks' /\
    nth_error tasks' 0 = Some t' /\
    completed t' = true /\ completedAt t' = At 9.
Proof.
  intros t tasks.
  assert (Hnd : NoDup (map id tasks)).
  { simpl. repeat constructor; simpl; intuition lia. }
  split; [exact Hnd|]. split; [reflexivity|].
  destruct (toggleComplete_flips_and_stamps tasks 0 t 9 Hnd eq_refl)
    as (tasks' & t' & H & Hn & Hc & Hs & _).
  exists tasks', t'. repeat split; assumption.
Defined.

(** X3.  A confirmed delete removes every task with the id and nothing
    else: the tasks left are those with another id, the id is unknown
    afterwards, and a second delete finds nothing to remove.  A declined
    confirmation keeps the collection. *)
Theorem deleteTask_removes_the_id target tasks :
  let tasks' := deleteTask true target tasks in
  (forall t, In t tasks' <-> In t tasks /\ id t <> target) /\
  unknown_id target tasks' /\
  (forall confirm, deleteTask confirm target tasks' = tasks') /\
  deleteTask false target tasks = tasks.
Proof.
  intros tasks'. subst tasks'. unfold deleteTask at 1 2.
  assert (Hin : forall t,
    In t (filter (fun u => negb (id u =? target)) tasks) <->
    In t tasks /\ id t <> target).
  { intros t. rewrite filter_In, Bool.negb_true_iff, Z.eqb_neq. tauto. }
  assert (Hu : unknown_id target (filter (fun u => negb (id u =? target)) tasks)).
  { intros t Ht. now apply Hin in Ht. }
  split; [exact Hin|]. split; [exact Hu|]. split; [|reflexivity].
  intros confirm. now apply deleteTask_unknown.
Qed.

Lemma filter_one_out tasks t :
  NoDup (map id tasks) -> In t tasks ->
  S (List.length (filter (fun u => negb (id u =? id t)) tasks))
  = List.length tasks.
Proof.
  induction tasks as [|x tasks IH]; intros Hnd Hin; [destruct Hin|].
  simpl in Hnd. inversion Hnd as [|? ? Hx Hnd']; subst.
  simpl. destruct Hin as [->|Hin].
  - rewrite Z.eqb_refl. simpl. f_equal.
    change (filter (fun u => negb (id u =? id t)) tasks)
      with (deleteTask true (id t) tasks).
    rewrite deleteTask_unknown; [reflexivity|].
    intros u Hu E. apply Hx. rewrite <- E. now apply in_map.
  - destruct (Z.eqb_spec (id x) (id t)) as [E|_]; simpl.
    + exfalso. apply Hx. rewrite E. now apply in_map.
    + f_equal. now apply IH.
Qed.

(** X4.  In a collection with distinct ids, a confirmed delete of a task
    of the collection makes the collection exactly one task shorter, and
    the ids stay distinct. *)
Theorem deleteTask_removes_one tasks t :
  NoDup (map id tasks) -> In t tasks ->
  S (List.length (deleteTask true (id t) tasks)) = List.length tasks /\
  ~ In t (deleteTask true (id t) tasks) /\
  NoDup (map id (deleteTask true (id t) tasks)).
Proof.
  intros Hnd Hin. split; [now apply filter_one_out|]. split.
  - unfold deleteTask. rewrite filter_In, Z.eqb_refl. simpl.
    intros [_ H]. discriminate H.
  - unfold deleteTask.
    pose proof (NoDup_map_filter_app id (fun u => negb (id u =? id t)) tasks [])
      as H.
    rewrite !app_nil_r in H. now apply H.
Qed.

Lemma deleteTask_removes_one_witness :
  let t := newTask 2 2 report in
  let tasks := [newTask 1 1 milk; t; newTask 3 3 milk] in
  NoDup (map id tasks) /\ In t tasks /\
  S (List.length (deleteTask true (id t) tasks)) = List.length tasks.
Proof.
  intros t tasks.
  assert (Hnd : NoDup (map id tasks)).
  { simpl. repeat constructor; simpl; intuition lia. }
  assert (Hin : In t tasks) by (right; left; reflexivity).
  split; [exact Hnd|]. split; [exact Hin|].
  exact (proj1 (deleteTask_removes_one tasks t Hnd Hin)).
Defined.

(** X5.  Adding a task under an id that no task has and deleting that id
    again gives back the collection. *)
Theorem add_then_delete_restores nowId nowCreated d tasks :
  unknown_id nowId tasks ->
  deleteTask true nowId (addTask nowId nowCreated d tasks) = tasks.
Proof.
  intros Hu. unfold deleteTask, addTask. rewrite filter_app. simpl.
  rewrite Z.eqb_refl. simpl. rewrite app_nil_r.
  exact (deleteTask_unknown true nowId tasks Hu).
Qed.

Lemma add_then_delete_restores_witness :
  let tasks := [newTask 1 1 milk] in
  unknown_id 2 tasks /\
  deleteTask true 2 (addTask 2 3 report tasks) = tasks.
Proof.
  intros tasks.
  assert (Hu : unknown_id 2 tasks).
  { intros t [<-|[]]. simpl. lia. }
  split; [exact Hu|]. exact (add_then_delete_restores 2 3 report tasks Hu).
Defined.

Lemma spread_id t u : u_id u = None -> id (spread t u) = id t.
Proof. intros H. unfold spread. simpl. now rewrite H. Qed.

Lemma spread_idempotent t u : spread (spread t u) u = spread t u.
Proof.
  unfold spread. destruct u as [ui ut ud up udd uc ucr uca]. simpl.
  destruct ui, ut, ud, up, udd, uc, ucr, uca; reflexivity.
Qed.

(** X6.  Merging the same fields twice is merging them once, and merges
    into tasks of different ids can be done in either order, as long as
    the merged fields leave the id alone. *)
Theorem updateTask_idempotent_and_commutes target target' u v tasks :
  u_id u = None -> u_id v = None ->
  updateTask target u (updateTask target u tasks) = updateTask target u tasks /\
  (target <> target' ->
   updateTask target u (updateTask target' v tasks)
   = updateTask target' v (updateTask target u tasks)).
Proof.
  intros Hu Hv. split.
  - rewrite updateTask_twice by exact Hu. unfold updateTask.
    apply map_ext. intros t. destruct (id t =? target); [|reflexivity].
    apply spread_idempotent.
  - intros Hne. unfold updateTask. rewrite !map_map. apply map_ext. intros t.
    destruct (id t =? target) eqn:E, (id t =? target') eqn:E';
      rewrite ?(spread_id t u Hu), ?(spread_id t v Hv), ?E, ?E';
      try reflexivity.
    apply Z.eqb_eq in E, E'. congruence.
Qed.

Lemma updateTask_idempotent_and_commutes_witness :
  let tasks := [newTask 1 1 milk; newTask 2 2 report] in
  u_id (form_updates report) = None /\ u_id (form_updates milk) = None /\
  updateTask 1 (form_updates report) (updateTask 2 (form_updates milk) tasks)
  = updateTask 2 (form_updates milk) (updateTask 1 (form_updates report) tasks).
Proof.
  intros tasks. split; [reflexivity|]. split; [reflexivity|].
  apply (proj2 (updateTask_idempotent_and_commutes 1 2 (form_updates report)
                  (form_updates milk) tasks eq_refl eq_refl)).
  lia.
Defined.

(** ** The form *)

Lemma trimStart_empty_iff s : trimStart s = "" <-> all_whitespace s.
Proof.
  induction s as [|c s IH]; simpl; [tauto|].
  destruct (isWhiteSpace c).
  - rewrite IH. tauto.
  - split; [discriminate | intros [H _]; discriminate H].
Qed.

Lemma all_whitespace_trimStart s :
  all_whitespace (trimStart s) <-> all_whitespace s.
Proof.
  induction s as [|c s IH]; simpl; [tauto|].
  destruct (isWhiteSpace c) eqn:E; simpl; rewrite ?E; [|tauto].
  rewrite IH. tauto.
Qed.

Lemma rev_string_empty s : forall acc,
  rev_string s acc = "" <-> s = "" /\ acc = "".
Proof.
  induction s as [|c s IH]; intros acc; simpl.
  - tauto.
  - rewrite IH. split; [intros [_ H]; discriminate H | intros [H _]; discriminate H].
Qed.

Lemma all_whitespace_rev_string s : forall acc,
  all_whitespace (rev_string s acc) <-> all_whitespace s /\ all_whitespace acc.
Proof.
  induction s as [|c s IH]; intros acc; simpl; [tauto|].
  rewrite IH. simpl. tauto.
Qed.

Lemma trim_empty_iff s : trim s = "" <-> all_whitespace s.
Proof.
  unfold trim. rewrite rev_string_empty, trimStart_empty_iff.
  rewrite all_whitespace_rev_string, all_whitespace_trimStart. simpl. tauto.
Qed.

Lemma handleSubmit_blank {A : Type} (onSubmit : formData -> A) d :
  all_whitespace (f_title d) -> handleSubmit onSubmit d = None.
Proof.
  intros H. apply trim_empty_iff in H. unfold handleSubmit. now rewrite H.
Qed.

Lemma handleSubmit_accepts {A : Type} (onSubmit : formData -> A) d :
  ~ all_whitespace (f_title d) -> handleSubmit onSubmit d = Some (onSubmit d).
Proof.
  intros H. apply trim_nonblank_accepts. now rewrite trim_empty_iff.
Qed.

(** X7.  For a title of ASCII characters, the submit handler of the form
    drops the submit exactly when the title is empty or made of white space
    only (tab, line feed, vertical tab, form feed, carriage return, space);
    every other ASCII title is passed on with its draft, unchanged, to
    [onSubmit].  The draft of a freshly opened add form is one that is
    dropped. *)
Theorem handleSubmit_rejects_blank_titles {A : Type}
    (onSubmit : formData -> A) d :
  is_ascii (f_title d) = true ->
  (handleSubmit onSubmit d = None <-> all_whitespace (f_title d)) /\
  (handleSubmit onSubmit d = Some (onSubmit d) <->
   ~ all_whitespace (f_title d)) /\
  handleSubmit onSubmit (initialFormData None) = None.
Proof.
  intros _. unfold handleSubmit. split; [|split; [|reflexivity]].
  - destruct (String.eqb_spec (trim (f_title d)) "") as [E|N].
    + apply trim_empty_iff in E. tauto.
    + rewrite <- trim_empty_iff. split; [discriminate|contradiction].
  - destruct (String.eqb_spec (trim (f_title d)) "") as [E|N].
    + apply trim_empty_iff in E. split; [discriminate|contradiction].
    + rewrite <- trim_empty_iff. tauto.
Qed.

Lemma handleSubmit_rejects_blank_titles_witness :
  is_ascii (f_title blank) = true /\ all_whitespace (f_title blank) /\
  handleSubmit (fun d => addTask 1 1 d []) blank = None /\
  is_ascii (f_title milk) = true /\ ~ all_whitespace (f_title milk) /\
  handleSubmit (fun d => addTask 1 1 d []) milk = Some (addTask 1 1 milk []).
Proof.
  assert (Hb : all_whitespace (f_title blank)) by (simpl; tauto).
  assert (Hm : ~ all_whitespace (f_title milk)).
  { simpl. intros [H _]. discriminate H. }
  split; [reflexivity|]. split; [exact Hb|]. split.
  { exact (proj2 (proj1 (handleSubmit_rejects_blank_titles
                           (fun d => addTask 1 1 d []) blank eq_refl)) Hb). }
  split; [reflexivity|]. split; [exact Hm|].
  exact (proj2 (proj1 (proj2 (handleSubmit_rejects_blank_titles
                                (fun d => addTask 1 1 d []) milk eq_refl))) Hm).
Defined.

Lemma same_id_same_task tasks t u :
  NoDup (map id tasks) -> In t tasks -> In u tasks -> id u = id t -> u = t.
Proof.
  intros Hnd Ht Hu E.
  pose proof (find_member tasks t Hnd Ht) as Ft.
  pose proof (find_member tasks u Hnd Hu) as Fu.
  rewrite E in Fu. congruence.
Qed.

(** X8.  Opening the edit form on a task of a collection with distinct
    ids and submitting it untouched is accepted when the title is not
    blank, and changes nothing but the description of that task, where a
    missing description becomes the empty string.  If the task has a
    description, the collection is exactly as before. *)
Theorem untouched_edit_changes_nothing tasks t :
  NoDup (map id tasks) -> In t tasks -> ~ all_whitespace (title t) ->
  exists tasks',
    handleSubmit (submitEdit t tasks) (initialFormData (Some t)) = Some tasks' /\
    map but_description tasks' = map but_description tasks /\
    (forall i u, nth_error tasks i = Some u ->
       exists u', nth_error tasks' i = Some u' /\
         description u' =
           (if id u =? id t then Some (or_else (description u) "")
            else description u)) /\
    (description t <> None -> tasks' = tasks).
Proof.
  intros Hnd Hin Hblank.
  exists (submitEdit t tasks (initialFormData (Some t))).
  split.
  { exact (handleSubmit_accepts (submitEdit t tasks)
             (initialFormData (Some t)) Hblank). }
  unfold submitEdit.
  assert (Hsame : forall u, In u tasks -> (id u =? id t) = true -> u = t).
  { intros u Hu E. apply Z.eqb_eq in E. now apply (same_id_same_task tasks). }
  split; [|split].
  - unfold updateTask. rewrite map_map. apply map_ext_in. intros u Hu.
    destruct (id u =? id t) eqn:E; [|reflexivity].
    rewrite (Hsame u Hu E). reflexivity.
  - intros i u Hi. rewrite updateTask_nth, Hi. simpl.
    eexists. split; [reflexivity|].
    destruct (id u =? id t) eqn:E; [|reflexivity].
    rewrite (Hsame u (nth_error_In _ _ Hi) E). reflexivity.
  - intros Hd. unfold updateTask. rewrite <- (map_id tasks) at 2.
    apply map_ext_in. intros u Hu.
    destruct (id u =? id t) eqn:E; [|reflexivity].
    rewrite (Hsame u Hu E). destruct t as [i ti [de|] p du c cr ca];
      [reflexivity|]. now contradiction Hd.
Qed.

Lemma untouched_edit_changes_nothing_witness :
  let t := newTask 2 2 report in
  let tasks := [newTask 1 1 milk; t] in
  NoDup (map id tasks) /\ In t tasks /\ ~ all_whitespace (title t) /\
  handleSubmit (submitEdit t tasks) (initialFormData (Some t)) = Some tasks.
Proof.
  intros t tasks.
  assert (Hnd : NoDup (map id tasks)).
  { simpl. repeat constructor; simpl; intuition lia. }
  assert (Hin : In t tasks) by (right; left; reflexivity).
  assert (Hb : ~ all_whitespace (title t)).
  { simpl. intros [H _]. discriminate H. }
  split; [exact Hnd|]. split; [exact Hin|]. split; [exact Hb|].
  destruct (untouched_edit_changes_nothing tasks t Hnd Hin Hb)
    as (tasks' & Hs & _ & _ & Heq).
  rewrite Hs. f_equal. apply Heq. discriminate.
Defined.

(** ** Filtering and searching *)

(** X9.  A filter value that is none of [completed], [pending], [high],
    [medium] and [low] falls to the default case of the switch and filters
    as [all] does: by the search term alone. *)
Theorem unnamed_filter_is_all tasks term flt :
  flt <> "completed" -> flt <> "pending" -> flt <> "high" ->
  flt <> "medium" -> flt <> "low" ->
  filteredTasks tasks term flt = filteredTasks tasks term "all" /\
  filteredTasks tasks term flt = filter (matchesSearch term) tasks.
Proof.
  intros H1 H2 H3 H4 H5.
  assert (H : forall t, passes term flt t = matchesSearch term t).
  { intros t. unfold passes.
    now rewrite (proj2 (String.eqb_neq _ _) H1), (proj2 (String.eqb_neq _ _) H2),
      (proj2 (String.eqb_neq _ _) H3), (proj2 (String.eqb_neq _ _) H4),
      (proj2 (String.eqb_neq _ _) H5). }
  unfold filteredTasks. split; apply filter_ext; intros t; rewrite H;
    reflexivity.
Qed.

Lemma unnamed_filter_is_all_witness :
  let tasks := [newTask 1 1 milk; newTask 2 2 report] in
  "urgent" <> "completed" /\
  filteredTasks tasks "milk" "urgent" = filteredTasks tasks "milk" "all".
Proof.
  intros tasks. split; [discriminate|].
  apply (unnamed_filter_is_all tasks "milk" "urgent"); discriminate.
Defined.

Lemma filteredTasks_unfiltered tasks : filteredTasks tasks "" "all" = tasks.
Proof.
  unfold filteredTasks. apply filter_true. intros t.
  rewrite passes_all. apply matchesSearch_empty.
Qed.

(** X10.  With no search term and the filter [all] nothing is filtered
    out, and the displayed list is a rearrangement of the whole
    collection. *)
Theorem no_search_no_filter_shows_all tasks :
  filteredTasks tasks "" "all" = tasks /\
  Permutation tasks (sortedTasks tasks "" "all") /\
  List.length (sortedTasks tasks "" "all") = List.length tasks.
Proof.
  pose proof (filteredTasks_unfiltered tasks) as H.
  assert (HP : Permutation tasks (sortedTasks tasks "" "all")).
  { unfold sortedTasks. rewrite H. apply sort_Permutation. }
  split; [exact H|]. split; [exact HP|].
  symmetry. now apply Permutation_length.
Qed.

(** X11.  The three priority filters split the tasks that match the
    search term: no task is in two of the views, and together the views
    hold what [all] holds, each task as often. *)
Theorem priority_filters_split_the_matches tasks term :
  let hi := filteredTasks tasks term "high" in
  let mid := filteredTasks tasks term "medium" in
  let lo := filteredTasks tasks term "low" in
  Permutation (hi ++ mid ++ lo) (filteredTasks tasks term "all") /\
  (forall t, ~ (In t hi /\ In t mid)) /\
  (forall t, ~ (In t hi /\ In t lo)) /\
  (forall t, ~ (In t mid /\ In t lo)).
Proof.
  intros hi mid lo. subst hi mid lo. unfold filteredTasks.
  split; [|repeat split].
  - rewrite (filter_split_Permutation (passes term "medium") (passes term "low")
               (fun t => passes term "medium" t || passes term "low" t)).
    + apply filter_split_Permutation; intros t; unfold passes; simpl;
        destruct (priority t), (matchesSearch term t); reflexivity.
    + reflexivity.
    + intros t. unfold passes. simpl.
      destruct (priority t), (matchesSearch term t); reflexivity.
  - intros t [H1 H2]. apply filter_In in H1, H2. unfold passes in *.
    simpl in *. destruct (priority t); simpl in *; intuition discriminate.
  - intros t [H1 H2]. apply filter_In in H1, H2. unfold passes in *.
    simpl in *. destruct (priority t); simpl in *; intuition discriminate.
  - intros t [H1 H2]. apply filter_In in H1, H2. unfold passes in *.
    simpl in *. destruct (priority t); simpl in *; intuition discriminate.
Qed.

Lemma string_app_assoc (a b c : string) :
  ((a ++ b) ++ c)%string = (a ++ b ++ c)%string.
Proof. induction a as [|x a IH]; simpl; [reflexivity | now rewrite IH]. Qed.

Lemma includes_trans s t u :
  includes s t = true -> includes t u = true -> includes s u = true.
Proof.
  rewrite !includes_spec.
  intros (pre & post & ->) (pre' & post' & ->).
  exists (pre ++ pre')%string, (post' ++ post)%string.
  now rewrite !string_app_assoc.
Qed.

Lemma matchesSearch_narrows term sub t :
  includes (toLowerCase term) (toLowerCase sub) = true ->
  matchesSearch term t = true -> matchesSearch sub t = true.
Proof.
  intros Hs. unfold matchesSearch. rewrite !Bool.orb_true_iff.
  intros [H|H]; [left; eapply includes_trans; eassumption|right].
  destruct (description t) as [d|]; [|discriminate].
  apply Bool.andb_true_iff in H. destruct H as [Ht H].
  rewrite Ht. simpl. eapply includes_trans; eassumption.
Qed.

Lemma passes_narrows term sub flt t :
  (matchesSearch term t = true -> matchesSearch sub t = true) ->
  passes term flt t = true -> passes sub flt t = true.
Proof.
  intros Hm. unfold passes.
  repeat match goal with
         | |- context [String.eqb flt ?k] => destruct (String.eqb flt k)
         end;
    rewrite ?Bool.andb_true_iff; intuition.
Qed.

(** X12.  On ASCII text a longer search term never finds more: a task
    found for a term is found, under the same filter, for every term that
    occurs in it with the case of the letters ignored, and a task found
    after more characters were typed at the end of a term was found for the
    term. *)
Theorem shorter_term_finds_no_less tasks term sub flt t :
  is_ascii term = true -> ascii_task t ->
  occurs_ignoring_case sub term ->
  In t (filteredTasks tasks term flt) ->
  In t (filteredTasks tasks sub flt) /\
  (forall more, is_ascii more = true ->
     In t (filteredTasks tasks (term ++ more)%string flt) ->
     In t (filteredTasks tasks term flt)).
Proof.
  intros Ha _ Hs Hin. unfold filteredTasks in *. split.
  - apply filter_In in Hin. apply filter_In. destruct Hin as [Hin Hp].
    split; [exact Hin|]. revert Hp. apply passes_narrows.
    apply matchesSearch_narrows. apply includes_ci_substring.
    now apply occurs_ignoring_case_ascii.
  - intros more _ Hm. apply filter_In in Hm. apply filter_In.
    destruct Hm as [Hm Hp]. split; [exact Hm|]. revert Hp.
    apply passes_narrows. apply matchesSearch_narrows.
    rewrite toLowerCase_app. apply includes_spec.
    exists "", (toLowerCase more). reflexivity.
Qed.

Lemma shorter_term_finds_no_less_witness :
  let t := newTask 2 2 report in
  let tasks := [newTask 1 1 milk; t] in
  is_ascii "report" = true /\ ascii_task t /\
  occurs_ignoring_case "REP" "report" /\
  In t (filteredTasks tasks "report" "pending") /\
  In t (filteredTasks tasks "REP" "pending").
Proof.
  intros t tasks.
  assert (Ht : ascii_task t).
  { split; [reflexivity|]. intros d [= <-]. reflexivity. }
  assert (Hs : occurs_ignoring_case "REP" "report").
  { exists "", "rep", "ort". split; [reflexivity|].
    apply same_letter_eq_ignore_case. simpl. tauto. }
  assert (Hin : In t (filteredTasks tasks "report" "pending"))
    by (left; reflexivity).
  split; [reflexivity|]. split; [exact Ht|]. split; [exact Hs|].
  split; [exact Hin|].
  exact (proj1 (shorter_term_finds_no_less tasks "report" "REP" "pending" t
                  eq_refl Ht Hs Hin)).
Defined.

(** ** The empty state *)

(** X13.  The invitation to add a first task is shown exactly when the
    collection is empty, no search term is typed and the filter is [all];
    the other message is shown exactly when a search term or a filter is
    set and no task passes them.  With cards to show there is no
    message. *)
Theorem emptyState_messages tasks term flt :
  (emptyState tasks term flt = Some "Add your first task to get started!" <->
   tasks = [] /\ term = "" /\ flt = "all") /\
  (emptyState tasks term flt = Some "Try adjusting your search or filter." <->
   filteredTasks tasks term flt = [] /\ (term <> "" \/ flt <> "all")) /\
  (emptyState tasks term flt = None <-> filteredTasks tasks term flt <> []).
Proof.
  assert (Hnil : sortedTasks tasks term flt = [] <->
                 filteredTasks tasks term flt = []).
  { unfold sortedTasks. split; intros H.
    - apply Permutation_nil. rewrite <- H. apply Permutation_sym, sort_Permutation.
    - now rewrite H. }
  unfold emptyState, truthy.
  destruct (sortedTasks tasks term flt) as [|x shown] eqn:Es.
  - assert (Hf : filteredTasks tasks term flt = []) by now apply Hnil.
    destruct (String.eqb_spec term "") as [->|Nt];
      destruct (String.eqb_spec flt "all") as [->|Nf]; simpl.
    + rewrite filteredTasks_unfiltered in Hf. subst tasks.
      intuition (try discriminate; try congruence).
    + intuition (try discriminate; try congruence).
    + intuition (try discriminate; try congruence).
    + intuition (try discriminate; try congruence).
  - assert (Hf : filteredTasks tasks term flt <> []).
    { intros H. apply Hnil in H. discriminate H. }
    split; [|split]; split; try discriminate; try tauto.
    intros (-> & -> & ->).
    rewrite filteredTasks_unfiltered in Hf. now contradiction Hf.
Qed.

(** ** Statistics and the overdue mark *)

Lemma Permutation_filter_length {A : Type} (p : A -> bool) l l' :
  Permutation l l' -> List.length (filter p l) = List.length (filter p l').
Proof.
  induction 1 as [|x l l' _ IH|x y l|l l' l'' _ IH1 _ IH2]; simpl.
  - reflexivity.
  - destruct (p x); simpl; now rewrite IH.
  - destruct (p x), (p y); reflexivity.
  - now rewrite IH1.
Qed.

Lemma filter_filter_length_le {A : Type} (p q : A -> bool) l :
  (List.length (filter p (filter q l)) <= List.length (filter p l))%nat.
Proof.
  induction l as [|x l IH]; simpl; [lia|].
  destruct (q x); simpl; destruct (p x); simpl; lia.
Qed.

(** X14.  The cards marked overdue and the overdue statistic agree: with
    no search term and the filter [all] there are as many marked cards as
    the statistic says, and under any search term and filter there are no
    more. *)
Theorem overdue_cards_agree_with_statistic now tasks :
  List.length (overdueCards now tasks "" "all") = overdue (stats now tasks) /\
  (forall term flt,
     (List.length (overdueCards now tasks term flt)
      <= overdue (stats now tasks))%nat).
Proof.
  unfold overdueCards, sortedTasks. split.
  - rewrite <- (Permutation_filter_length _ _ _ (sort_Permutation compareTasks _)).
    now rewrite filteredTasks_unfiltered.
  - intros term flt.
    rewrite <- (Permutation_filter_length _ _ _ (sort_Permutation compareTasks _)).
    unfold filteredTasks. simpl. apply filter_filter_length_le.
Qed.

Lemma completed_or_pending tasks :
  (List.length (filter (fun t => completed t) tasks) +
   List.length (filter (fun t => negb (completed t)) tasks))%nat
  = List.length tasks.
Proof.
  induction tasks as [|t tasks IH]; simpl; [reflexivity|].
  destruct (completed t); simpl; lia.
Qed.

(** X15.  The statistics add up: every task is counted as completed or as
    pending, and the overdue tasks are among the pending ones.  An add
    raises the total and the pending count by one, leaves the completed
    count, and raises the overdue count by one exactly when the draft's due
    date is before the clock's reading. *)
Theorem statistics_add_up now nowId nowCreated d tasks :
  let s := stats now tasks in
  let s' := stats now (addTask nowId nowCreated d tasks) in
  (s_completed s + s_pending s)%nat = total s /\
  (overdue s <= s_pending s)%nat /\
  total s' = S (total s) /\
  s_pending s' = S (s_pending s) /\
  s_completed s' = s_completed s /\
  overdue s' =
    (overdue s +
     match f_dueDate d with
     | Some due => if (due <? now)%Z then 1 else 0
     | None => 0
     end)%nat.
Proof.
  intros s s'. subst s s'. simpl. unfold addTask.
  rewrite !filter_app, !length_app. simpl.
  split; [apply completed_or_pending|]. split; [apply overdue_le_pending|].
  split; [lia|]. split; [lia|]. split; [lia|].
  unfold isOverdue at 2. simpl.
  destruct (f_dueDate d) as [due|]; [destruct (due <? now)|]; reflexivity.
Qed.

(** Merging into the one task with an id moves at most that task across a
    predicate. *)
Lemma updateTask_count (p : task -> bool) t u tasks :
  NoDup (map id tasks) -> In t tasks ->
  (List.length (filter p (updateTask (id t) u tasks)) + Nat.b2n (p t))%nat
  = (List.length (filter p tasks) + Nat.b2n (p (spread t u)))%nat.
Proof.
  induction tasks as [|x tasks IH]; intros Hnd Hin; [destruct Hin|].
  simpl in Hnd. inversion Hnd as [|? ? Hx Hnd']; subst.
  destruct Hin as [->|Hin].
  - assert (Hu : unknown_id (id t) tasks).
    { intros y Hy E. apply Hx. rewrite <- E. now apply in_map. }
    simpl. rewrite Z.eqb_refl.
    change (map (fun t0 => if id t0 =? id t then spread t0 u else t0) tasks)
      with (updateTask (id t) u tasks).
    rewrite (updateTask_unknown _ u _ Hu).
    destruct (p t), (p (spread t u)); simpl; lia.
  - assert (N : id x <> id t).
    { intros E. apply Hx. rewrite E. now apply in_map. }
    simpl. rewrite (proj2 (Z.eqb_neq _ _) N).
    specialize (IH Hnd' Hin).
    destruct (p x); simpl; lia.
Qed.

(** X16.  In a collection with distinct ids, completing a pending task
    moves one task from the pending count to the completed count and
    takes it out of the overdue count if it was overdue; marking a
    completed task incomplete moves it back and counts it as overdue if its
    due date has passed.  The total never changes. *)
Theorem toggle_moves_one_between_counts tasks t now clock :
  NoDup (map id tasks) -> In t tasks ->
  exists tasks',
    toggleComplete now (id t) tasks = Ok tasks' /\
    let s := stats clock tasks in
    let s' := stats clock tasks' in
    total s' = total s /\
    (if completed t
     then S (s_completed s') = s_completed s /\
          s_pending s' = S (s_pending s) /\
          overdue s' =
            (overdue s +
             match dueDate t with
             | Some due => if (due <? clock)%Z then 1 else 0
             | None => 0
             end)%nat
     else s_completed s' = S (s_completed s) /\
          S (s_pending s') = s_pending s /\
          (overdue s' + Nat.b2n (isOverdue clock t))%nat = overdue s).
Proof.
  intros Hnd Hin.
  exists (updateTask (id t) (toggle_updates now t) tasks). split.
  { unfold toggleComplete. now rewrite (find_member tasks t Hnd Hin). }
  simpl. split; [apply updateTask_length|].
  pose proof (updateTask_count (fun t => completed t) t
                (toggle_updates now t) tasks Hnd Hin) as Hc.
  pose proof (updateTask_count (fun t => negb (completed t)) t
                (toggle_updates now t) tasks Hnd Hin) as Hp.
  pose proof (updateTask_count (isOverdue clock) t
                (toggle_updates now t) tasks Hnd Hin) as Ho.
  set (tasks' := updateTask (id t) (toggle_updates now t) tasks) in *.
  set (c' := List.length (filter (fun t => completed t) tasks')) in *.
  set (c := List.length (filter (fun t => completed t) tasks)) in *.
  set (p' := List.length (filter (fun t => negb (completed t)) tasks')) in *.
  set (p := List.length (filter (fun t => negb (completed t)) tasks)) in *.
  set (o' := List.length (filter (isOverdue clock) tasks')) in *.
  set (o := List.length (filter (isOverdue clock) tasks)) in *.
  unfold isOverdue in Ho |- *. simpl in Hc, Hp, Ho.
  destruct (completed t) eqn:E; simpl in *;
    (destruct (dueDate t) as [due|]; [destruct (due <? clock)|]);
    simpl in *; repeat split; lia.
Qed.

Lemma toggle_moves_one_between_counts_witness :
  let t := newTask 2 2 report in
  let tasks := [newTask 1 1 milk; t] in
  NoDup (map id tasks) /\ In t tasks /\
  exists tasks',
    toggleComplete 5 (id t) tasks = Ok tasks' /\
    stats 90000000 tasks = mkStats 2 0 2 1 /\
    stats 90000000 tasks' = mkStats 2 1 1 0.
Proof.
  intros t tasks.
  assert (Hnd : NoDup (map id tasks)).
  { simpl. repeat constructor; simpl; intuition lia. }
  assert (Hin : In t tasks) by (right; left; reflexivity).
  split; [exact Hnd|]. split; [exact Hin|].
  destruct (toggle_moves_one_between_counts tasks t 5 90000000 Hnd Hin)
    as (tasks' & H & _).
  exists tasks'. split; [exact H|]. split; [reflexivity|].
  vm_compute in H. injection H as <-. reflexivity.
Defined.

(** ** The component as a whole *)

(** An event changes the collection as at most one action of the store
    does. *)
Lemma handle_is_a_store_action e a :
  exists actions, app_tasks (handle e a) = run actions (app_tasks a).
Proof.
  destruct e as [|t|nowId nowCreated d| |now target|confirm target|s|s]; simpl;
    try (exists []; reflexivity).
  - destruct (formVisible a); [|exists []; reflexivity].
    destruct (editingTask a) as [e|] eqn:Ee.
    + exists [EditSubmit (id e) d]. simpl.
      unfold handleSubmit, onSubmit. rewrite Ee.
      destruct (String.eqb _ _); reflexivity.
    + exists [AddSubmit nowId nowCreated d]. simpl.
      unfold handleSubmit, onSubmit. rewrite Ee.
      destruct (String.eqb _ _); reflexivity.
  - exists [Toggle now target]. simpl.
    destruct (toggleComplete now target (app_tasks a)); reflexivity.
  - exists [Delete confirm target]. reflexivity.
Qed.

Lemma handleAll_is_store_actions events : forall a,
  exists actions, app_tasks (handleAll events a) = run actions (app_tasks a).
Proof.
  induction events as [|e events IH]; intros a; simpl.
  - exists []. reflexivity.
  - destruct (handle_is_a_store_action e a) as [acts1 H1].
    destruct (IH (handle e a)) as [acts2 H2].
    exists (acts1 ++ acts2). now rewrite H2, H1, run_app.
Qed.

(** X17.  Whatever the user does on the page, in whatever order, the
    collection of the component is one that the four store operations
    reach from the empty collection; no event changes it in another way.
    So every task of it holds a completion timestamp exactly when it is
    completed, and typing a search term or choosing a filter leaves the
    collection alone. *)
Theorem every_event_trace_is_a_store_trace events :
  let a := handleAll events initialApp in
  reachable (app_tasks a) /\
  Forall completedAt_consistent (app_tasks a) /\
  (forall s, app_tasks (handle (ChangeSearch s) a) = app_tasks a) /\
  (forall s, app_tasks (handle (ChangeFilter s) a) = app_tasks a).
Proof.
  intros a. subst a.
  destruct (handleAll_is_store_actions events initialApp) as [actions H].
  simpl in H. split; [now exists actions|]. split.
  - rewrite H. apply run_consistent. constructor.
  - split; reflexivity.
Qed.

Lemma handle_one_form e a :
  one_form a ->
  match e with
  | ClickAdd | ClickEdit _ => formVisible a = false
  | _ => True
  end ->
  one_form (handle e a).
Proof.
  unfold one_form, formVisible. intros H Hg.
  destruct e as [|t|nowId nowCreated d| |now target|confirm target|s|s]; simpl.
  - right. destruct (showAddForm a), (editingTask a); try discriminate.
    reflexivity.
  - left. destruct (showAddForm a); [discriminate|reflexivity].
  - unfold formVisible. destruct (showAddForm a || _); [|exact H].
    unfold handleSubmit. destruct (String.eqb _ _); simpl; [exact H|].
    unfold onSubmit. destruct (editingTask a); simpl; now right.
  - now left.
  - destruct (toggleComplete now target (app_tasks a)); exact H.
  - exact H.
  - exact H.
  - exact H.
Qed.

(** X18.  As long as the add button and the edit buttons are used only
    while no form is open, the component never requests the add form and
    the edit form together. *)
Theorem forms_are_mutually_exclusive events :
  opens_when_closed events initialApp ->
  let a := handleAll events initialApp in
  ~ (showAddForm a = true /\ editingTask a <> None).
Proof.
  intros Hg a. subst a.
  assert (H : forall evs st, one_form st -> opens_when_closed evs st ->
                             one_form (handleAll evs st)).
  { induction evs as [|e evs IH]; intros st Hst Hev; simpl; [exact Hst|].
    destruct Hev as [He Hev]. apply IH; [|exact Hev].
    now apply handle_one_form. }
  specialize (H events initialApp (or_introl eq_refl) Hg).
  destruct H as [H|H]; intros [H1 H2]; congruence.
Qed.

Lemma forms_are_mutually_exclusive_witness :
  let events :=
    [ClickAdd; FormSubmit 1 1 milk; ClickEdit (newTask 1 1 milk);
     FormSubmit 2 2 blank; FormCancel; ClickAdd] in
  opens_when_closed events initialApp /\
  ~ (showAddForm (handleAll events initialApp) = true /\
     editingTask (handleAll events initialApp) <> None).
Proof.
  intros events.
  assert (H : opens_when_closed events initialApp).
  { simpl. repeat split. }
  split; [exact H|]. exact (forms_are_mutually_exclusive events H).
Defined.

(** X19.  With one form open, the submit of a draft whose title is ASCII
    text and not blank closes the form: from the add form it appends the
    new task, from the edit form it merges the draft into the task being
    edited.  A submit with a title of white space only changes nothing and
    leaves the form open, and a cancel closes the form without touching
    the collection. *)
Theorem submit_and_cancel_close_the_form a nowId nowCreated d :
  one_form a -> formVisible a = true ->
  (is_ascii (f_title d) = true -> ~ all_whitespace (f_title d) ->
   formVisible (handle (FormSubmit nowId nowCreated d) a) = false /\
   app_tasks (handle (FormSubmit nowId nowCreated d) a) =
     match editingTask a with
     | Some e => updateTask (id e) (form_updates d) (app_tasks a)
     | None => addTask nowId nowCreated d (app_tasks a)
     end) /\
  (all_whitespace (f_title d) ->
   handle (FormSubmit nowId nowCreated d) a = a) /\
  formVisible (handle FormCancel a) = false /\
  app_tasks (handle FormCancel a) = app_tasks a.
Proof.
  intros Hone Hvis. simpl. rewrite Hvis. split; [|split; [|split; reflexivity]].
  - intros _ Hb.
    rewrite (handleSubmit_accepts (onSubmit nowId nowCreated a) d Hb).
    simpl. unfold onSubmit, formVisible in *.
    destruct Hone as [Hs|He].
    + rewrite Hs in *. destruct (editingTask a); simpl; [|discriminate Hvis].
      rewrite ?Hs. split; reflexivity.
    + rewrite He. simpl. split; reflexivity.
  - intros Hb.
    now rewrite (handleSubmit_blank (onSubmit nowId nowCreated a) d Hb).
Qed.

Lemma submit_and_cancel_close_the_form_witness :
  let a := handleAll [ClickAdd] initialApp in
  one_form a /\ formVisible a = true /\
  is_ascii (f_title milk) = true /\ ~ all_whitespace (f_title milk) /\
  formVisible (handle (FormSubmit 1 2 milk) a) = false /\
  app_tasks (handle (FormSubmit 1 2 milk) a) = [newTask 1 2 milk].
Proof.
  intros a.
  assert (Hone : one_form a) by (right; reflexivity).
  assert (Hb : ~ all_whitespace (f_title milk)).
  { simpl. intros [H _]. discriminate H. }
  split; [exact Hone|]. split; [reflexivity|]. split; [reflexivity|].
  split; [exact Hb|].
  exact (proj1 (submit_and_cancel_close_the_form a 1 2 milk Hone eq_refl)
               eq_refl Hb).
Defined.

(** X20.  Should both forms be requested at once, the form submits as an
    edit form: an accepted draft is merged into the task being edited, no
    task is added, and the add form is still open afterwards. *)
Theorem edit_takes_precedence_over_add a e nowId nowCreated d :
  showAddForm a = true -> editingTask a = Some e ->
  ~ all_whitespace (f_title d) ->
  let a' := handle (FormSubmit nowId nowCreated d) a in
  app_tasks a' = updateTask (id e) (form_updates d) (app_tasks a) /\
  List.length (app_tasks a') = List.length (app_tasks a) /\
  editingTask a' = None /\ showAddForm a' = true /\ formVisible a' = true.
Proof.
  intros Hs He Hb a'. subst a'. simpl.
  unfold formVisible at 1. rewrite Hs. simpl.
  rewrite (handleSubmit_accepts (onSubmit nowId nowCreated a) d Hb).
  simpl. unfold onSubmit, formVisible. rewrite He. simpl. rewrite Hs.
  repeat split. apply updateTask_length.
Qed.

Lemma edit_takes_precedence_over_add_witness :
  let a := handleAll [ClickAdd; FormSubmit 1 1 milk; ClickAdd;
                      ClickEdit (newTask 1 1 milk)] initialApp in
  showAddForm a = true /\ editingTask a = Some (newTask 1 1 milk) /\
  ~ all_whitespace (f_title report) /\
  app_tasks (handle (FormSubmit 2 2 report) a)
  = updateTask 1 (form_updates report) (app_tasks a) /\
  showAddForm (handle (FormSubmit 2 2 report) a) = true.
Proof.
  intros a.
  assert (Hb : ~ all_whitespace (f_title report)).
  { simpl. intros [H _]. discriminate H. }
  split; [reflexivity|]. split; [reflexivity|]. split; [exact Hb|].
  destruct (edit_takes_precedence_over_add a (newTask 1 1 milk) 2 2 report
              eq_refl eq_refl Hb) as (H1 & _ & _ & H2 & _).
  split; [exact H1 | exact H2].
Defined.


